(** * Singly linked list (package linkedlist): heap model and properties

    The Go program keeps its nodes and its list headers on the garbage
    collected heap and links them with pointers; several of its operations
    alias and mutate shared cells.  The embedding therefore works on an
    explicit store: every [node] and every [LinkedList] header lives at an
    address, a pointer is an optional address ([None] is Go's [nil]), and each
    method is a computation in a small state-and-failure monad over the
    store. *)

From Stdlib Require Import ZArith Lia.
From stdpp Require Import base decidable option list strings pretty.

Local Open Scope Z_scope.

(** ** Data model *)

Abbreviation loc := nat.

(** A Go pointer: [None] is [nil]. *)
Abbreviation ptr := (option loc).

(** [type node[T any] struct { value T; next *node[T] }] *)
Record node (T : Type) := Node { value : T; next : ptr }.
Arguments Node {T} _ _.
Arguments value {T} _.
Arguments next {T} _.

(** [type LinkedList[T comparable] struct { head, tail *node[T]; size int }] *)
Record LinkedList := Header { head : ptr; tail : ptr; size : Z }.

(** The store: node cells and list headers, each addressed by its index.
    Go never frees a cell that is still referenced, so cells are only ever
    added at the end or overwritten in place. *)
Record heap (T : Type) := Heap { nodes : list (node T); lists : list LinkedList }.
Arguments Heap {T} _ _.
Arguments nodes {T} _.
Arguments lists {T} _.

(** Result of running a method: a value and the new store, a run-time panic
    (nil pointer dereference), or a loop that never ends. *)
Inductive outcome (S A : Type) :=
| Ok (a : A) (s : S)
| Panic
| Diverge.
Arguments Ok {S A} _ _.
Arguments Panic {S A}.
Arguments Diverge {S A}.

(** The two failures of [Get]: [errors.New] with the texts "lista vacia"
    and "posicion invalida" of the source (written there with accents). *)
Inductive error := EmptyList | InvalidPosition.

(** Go's [==] on the element type, which the source constrains by
    [T comparable].  It need not be reflexive, nor tell apart all values:
    on floating-point elements a NaN is not [==] to itself and the two zeros
    are [==].  The comparison is taken to return a boolean, as it does on
    every element type but an interface type, where [==] on two values of
    one non-comparable dynamic type panics. *)
Class GoEq (T : Type) := go_eqb : T -> T -> bool.

(** Go's [int] on a 64-bit platform: two's complement wrap-around. *)
Definition intSize : Z := 64.
Definition wrap (z : Z) : Z :=
  (z + 2 ^ (intSize - 1)) mod 2 ^ intSize - 2 ^ (intSize - 1).

Declare Scope go_scope.
Delimit Scope go_scope with go.

Definition M (T A : Type) : Type := heap T -> outcome (heap T) A.

Section Machine.
Context {T : Type}.
Local Abbreviation M := (M T).

Definition ret {A} (a : A) : M A := fun h => Ok a h.

Definition bind {A B} (c : M A) (k : A -> M B) : M B :=
  fun h => match c h with
           | Ok a h' => k a h'
           | Panic => Panic
           | Diverge => Diverge
           end.

Definition diverge {A} : M A := fun _ => Diverge.

(** Number of node cells of the store.  It is the fuel of the walks over
    a whole chain: a chain that ends in [nil] visits no cell twice, so it
    has at most that many cells, and a walk that uses up the fuel is on a
    cyclic chain, where the Go loop does not end. *)
Definition heap_size : M nat := fun h => Ok (length (nodes h)) h.

(** [&node{...}] and [&LinkedList{...}]: a fresh cell at the next address. *)
Definition alloc_node (n : node T) : M ptr :=
  fun h => Ok (Some (length (nodes h))) (Heap (nodes h ++ [n]) (lists h)).

Definition alloc_list (L : LinkedList) : M ptr :=
  fun h => Ok (Some (length (lists h))) (Heap (nodes h) (lists h ++ [L])).

(** Reading and writing through a pointer.  [nil] panics; so does, in the
    model, an address outside the store, which no Go pointer can hold. *)
Definition load_node (p : ptr) : M (node T) :=
  fun h => match p with
           | None => Panic
           | Some a => match nodes h !! a with
                       | Some n => Ok n h
                       | None => Panic
                       end
           end.

Definition store_node (p : ptr) (f : node T -> node T) : M unit :=
  fun h => match p with
           | None => Panic
           | Some a => match nodes h !! a with
                       | Some n => Ok tt (Heap (<[a := f n]> (nodes h)) (lists h))
                       | None => Panic
                       end
           end.

Definition load_list (l : ptr) : M LinkedList :=
  fun h => match l with
           | None => Panic
           | Some a => match lists h !! a with
                       | Some L => Ok L h
                       | None => Panic
                       end
           end.

Definition store_list (l : ptr) (f : LinkedList -> LinkedList) : M unit :=
  fun h => match l with
           | None => Panic
           | Some a => match lists h !! a with
                       | Some L => Ok tt (Heap (nodes h) (<[a := f L]> (lists h)))
                       | None => Panic
                       end
           end.
End Machine.

Notation "'let*' x ':=' c 'in' k" := (bind c (fun x => k))
  (at level 10, x name, c at level 100, k at level 200) : go_scope.
Notation "c ;; k" := (bind c (fun _ => k))
  (at level 100, k at level 200, right associativity) : go_scope.

Section Fields.
Context {T : Type}.
Local Abbreviation M := (M T).
Local Open Scope go_scope.

(** Field reads [p.value], [p.next], [l.head], [l.tail], [l.size]. *)
Definition get_value (p : ptr) : M T := let* n := load_node p in ret (value n).
Definition get_next (p : ptr) : M ptr := let* n := load_node p in ret (next n).
Definition get_head (l : ptr) : M ptr := let* L := load_list l in ret (head L).
Definition get_tail (l : ptr) : M ptr := let* L := load_list l in ret (tail L).
Definition get_size (l : ptr) : M Z := let* L := load_list l in ret (size L).

(** Field writes [p.next = q], [l.head = q], [l.tail = q], [l.size = z]. *)
Definition set_next (p q : ptr) : M unit :=
  store_node p (fun n => Node (value n) q).
Definition set_head (l q : ptr) : M unit :=
  store_list l (fun L => Header q (tail L) (size L)).
Definition set_tail (l q : ptr) : M unit :=
  store_list l (fun L => Header (head L) q (size L)).
Definition set_size (l : ptr) (z : Z) : M unit :=
  store_list l (fun L => Header (head L) (tail L) z).

(** [l.size++] and [l.size--]. *)
Definition incr_size (l : ptr) : M unit :=
  let* s := get_size l in set_size l (wrap (s + 1)).
Definition decr_size (l : ptr) : M unit :=
  let* s := get_size l in set_size l (wrap (s - 1)).
End Fields.

(** ** The program *)

Section Program.
Context {T : Type} `{GoEq T}.
(** [var t T]: the zero value of the element type. *)
Variable zero : T.
(** [fmt.Sprintf("%v", x)] on the element type. *)
Variable show : T -> string.
Local Abbreviation M := (M T).
Local Open Scope go_scope.

Definition newNode (v : T) : M ptr := alloc_node (Node v None).

Definition NewLinkedList : M ptr := alloc_list (Header None None 0).

Definition Append (l : ptr) (v : T) : M unit :=
  let* newNode := newNode v in
  let* hd := get_head l in
  match hd with
  | None =>
      set_head l newNode ;;
      set_tail l newNode ;;
      incr_size l
  | Some _ =>
      let* tl := get_tail l in
      set_next tl newNode ;;
      set_tail l newNode ;;
      incr_size l
  end.

Definition Prepend (l : ptr) (v : T) : M unit :=
  let* newNode := newNode v in
  let* hd := get_head l in
  match hd with
  | None =>
      set_head l newNode ;;
      set_tail l newNode ;;
      incr_size l
  | Some _ =>
      set_next newNode hd ;;
      set_head l newNode ;;
      incr_size l
  end.

(** [for current != nil && position > 1 { current = current.next;
    position--; l.size++ }].  Every round lowers [position], so
    [position] rounds of fuel are never used up. *)
Fixpoint InsertAt_loop (fuel : nat) (l current : ptr) (position : Z) : M ptr :=
  match current with
  | None => ret current
  | Some _ =>
      if 1 <? position then
        match fuel with
        | O => diverge
        | S fuel' =>
            let* nx := get_next current in
            incr_size l ;;
            InsertAt_loop fuel' l nx (position - 1)
        end
      else ret current
  end.

Definition InsertAt (l : ptr) (v : T) (position : Z) : M unit :=
  if position <? 0 then ret tt
  else
    let* newNode := newNode v in
    if position =? 0 then
      Prepend l v ;;
      incr_size l
    else
      let* hd := get_head l in
      let* current := InsertAt_loop (Z.to_nat position) l hd position in
      match current with
      | None => ret tt
      | Some _ =>
          let* nx := get_next current in
          set_next newNode nx ;;
          set_next current newNode
      end.

(** [for current.next != nil { if current.next.value == value {...; return};
    current = current.next }] *)
Fixpoint Remove_loop (fuel : nat) (l : ptr) (v : T) (current : ptr) : M unit :=
  let* nx := get_next current in
  match nx with
  | None => ret tt
  | Some _ =>
      match fuel with
      | O => diverge
      | S fuel' =>
          let* nv := get_value nx in
          if go_eqb nv v then
            let* nn := get_next nx in
            set_next current nn ;;
            decr_size l
          else Remove_loop fuel' l v nx
      end
  end.

Definition Remove (l : ptr) (v : T) : M unit :=
  let* hd := get_head l in
  match hd with
  | None => ret tt
  | Some _ =>
      let* hv := get_value hd in
      if go_eqb hv v then
        let* nx := get_next hd in
        set_head l nx ;;
        decr_size l
      else
        let* fuel := heap_size in
        Remove_loop fuel l v hd
  end.

(** [for current != nil { result += Sprintf("%v", current.value);
    if current.next != nil { result += " " }; current = current.next }] *)
Fixpoint String_loop (fuel : nat) (current : ptr) (result : string) : M string :=
  match current with
  | None => ret result
  | Some _ =>
      match fuel with
      | O => diverge
      | S fuel' =>
          let* cv := get_value current in
          let* nx := get_next current in
          String_loop fuel' nx
            (match nx with
             | Some _ => (result +:+ show cv) +:+ " "
             | None => result +:+ show cv
             end)
      end
  end.

Definition String (l : ptr) : M string :=
  let* hd := get_head l in
  match hd with
  | None => ret "[]"
  | Some _ =>
      let* fuel := heap_size in
      let* result := String_loop fuel hd "[" in
      ret (result +:+ "]")
  end.

(** [for current != nil { if current.value == value { return position };
    current = current.next; position++ }; return -1] *)
Fixpoint Search_loop (fuel : nat) (v : T) (current : ptr) (position : Z) : M Z :=
  match current with
  | None => ret (-1)
  | Some _ =>
      match fuel with
      | O => diverge
      | S fuel' =>
          let* cv := get_value current in
          if go_eqb cv v then ret position
          else
            let* nx := get_next current in
            Search_loop fuel' v nx (wrap (position + 1))
      end
  end.

Definition Search (l : ptr) (v : T) : M Z :=
  let* hd := get_head l in
  match hd with
  | None => ret (-1)
  | Some _ =>
      let* fuel := heap_size in
      Search_loop fuel v hd 0
  end.

(** [for current != nil && position > 0 { current = current.next;
    position-- }] *)
Fixpoint Get_loop (fuel : nat) (current : ptr) (position : Z) : M ptr :=
  match current with
  | None => ret current
  | Some _ =>
      if 0 <? position then
        match fuel with
        | O => diverge
        | S fuel' =>
            let* nx := get_next current in
            Get_loop fuel' nx (position - 1)
        end
      else ret current
  end.

Definition Get (l : ptr) (position : Z) : M (T * option error) :=
  let* hd := get_head l in
  match hd with
  | None => ret (zero, Some EmptyList)
  | Some _ =>
      let* current := Get_loop (Z.to_nat position) hd position in
      match current with
      | None => ret (zero, Some InvalidPosition)
      | Some _ =>
          let* cv := get_value current in
          ret (cv, None)
      end
  end.

(** [for current != nil { current = current.next; position++ }] *)
Fixpoint Size_loop (fuel : nat) (current : ptr) (position : Z) : M Z :=
  match current with
  | None => ret position
  | Some _ =>
      match fuel with
      | O => diverge
      | S fuel' =>
          let* nx := get_next current in
          Size_loop fuel' nx (wrap (position + 1))
      end
  end.

Definition Size (l : ptr) : M Z :=
  let* hd := get_head l in
  match hd with
  | None => ret 0
  | Some _ =>
      let* fuel := heap_size in
      Size_loop fuel hd 0
  end.

(** The receiver [l] is a parameter of both combination methods, as in the
    source, and is not used by either body. *)
Definition ConcatenarListas (l l1 l2 : ptr) : M ptr :=
  let* h1 := get_head l1 in
  match h1 with
  | None => ret l2
  | Some _ =>
      let* h2 := get_head l2 in
      match h2 with
      | None => ret l1
      | Some _ =>
          let* t1 := get_tail l1 in
          set_next t1 h2 ;;
          let* t2 := get_tail l2 in
          set_tail l1 t2 ;;
          let* s1 := get_size l1 in
          let* s2 := get_size l2 in
          set_size l1 (wrap (s1 + s2)) ;;
          ret l1
      end
  end.

(** [for current1 != nil && current2 != nil { result.Append(current1.value);
    result.Append(current2.value); current1 = current1.next;
    current2 = current2.next }] *)
Fixpoint Intercalar_loop (fuel : nat) (result current1 current2 : ptr) : M (ptr * ptr) :=
  match current1, current2 with
  | Some _, Some _ =>
      match fuel with
      | O => diverge
      | S fuel' =>
          let* v1 := get_value current1 in
          Append result v1 ;;
          let* v2 := get_value current2 in
          Append result v2 ;;
          let* n1 := get_next current1 in
          let* n2 := get_next current2 in
          Intercalar_loop fuel' result n1 n2
      end
  | _, _ => ret (current1, current2)
  end.

(** [for current != nil { result.Append(current.value);
    current = current.next }] *)
Fixpoint Resto_loop (fuel : nat) (result current : ptr) : M unit :=
  match current with
  | None => ret tt
  | Some _ =>
      match fuel with
      | O => diverge
      | S fuel' =>
          let* cv := get_value current in
          Append result cv ;;
          let* nx := get_next current in
          Resto_loop fuel' result nx
      end
  end.

Definition IntercalarListas (l l1 l2 : ptr) : M ptr :=
  match l1, l2 with
  | Some _, Some _ =>
      let* fuel := heap_size in
      let* result := alloc_list (Header None None 0) in
      let* hd1 := get_head l1 in
      let* hd2 := get_head l2 in
      let* cur := Intercalar_loop fuel result hd1 hd2 in
      Resto_loop fuel result (fst cur) ;;
      Resto_loop fuel result (snd cur) ;;
      ret result
  | _, _ => ret None
  end.

(** A run of [Append] calls, in order. *)
Fixpoint Appends (l : ptr) (vs : list T) : M unit :=
  match vs with
  | [] => ret tt
  | v :: vs' => Append l v ;; Appends l vs'
  end.
End Program.

(** ** Vocabulary of the statements *)

Section Vocabulary.
Context {T : Type} `{GoEq T}.
Variable show : T -> string.
Implicit Types (ns : list (node T)) (p q : ptr) (cs acc : list (loc * T)).
Implicit Types (h : heap T) (L : LinkedList) (vs : list T) (m : loc).

(** [lseg ns p cs q]: following [next] from [p] visits exactly the cells
    [cs] (address and stored value, in order) and arrives at [q]. *)
Fixpoint lseg ns p cs q : Prop :=
  match cs with
  | [] => p = q
  | c :: cs' =>
      p = Some c.1 /\ exists nx, ns !! c.1 = Some (Node c.2 nx) /\ lseg ns nx cs' q
  end.

(** A chain that ends in [nil]. *)
Definition chain ns p cs : Prop := lseg ns p cs None.

(** [list_rep h L cs]: the header [L] owns the chain [cs], and when the
    chain is not empty its [tail] field is the address of the last cell. *)
Definition list_rep h L cs : Prop :=
  chain (nodes h) (head L) cs /\ (cs <> [] -> tail L = fst <$> last cs).

(** The store after [Append l v] on such a list. *)
Definition Append_result h (l : loc) L cs (v : T) : heap T :=
  let n := length (nodes h) in
  Heap (match last cs with
        | None => nodes h
        | Some c => <[c.1 := Node c.2 (Some n)]> (nodes h)
        end ++ [Node v None])
       (<[l := Header (match cs with [] => Some n | _ => head L end) (Some n)
                 (wrap (size L + 1))]> (lists h)).

(** The words of the bracketed rendering, separated by single spaces. *)
Fixpoint spaced (ss : list string) : string :=
  match ss with
  | [] => ""
  | [s] => s
  | s :: ss' => s +:+ " " +:+ spaced ss'
  end.

(** The rendering [[v1 v2 ... vn]] the specification asks for. *)
Definition render vs : string := "[" +:+ spaced (show <$> vs) +:+ "]".

(** Zero-based position of the first element that is [==] to [v]. *)
Fixpoint first_index (v : T) vs : option nat :=
  match vs with
  | [] => None
  | x :: vs' => if go_eqb x v then Some O else S <$> first_index v vs'
  end.

(** The chain without the first cell whose value is [==] to [v]. *)
Fixpoint remove_first (v : T) cs : list (loc * T) :=
  match cs with
  | [] => []
  | c :: cs' => if go_eqb c.2 v then cs' else c :: remove_first v cs'
  end.

(** What the specification asks of the result: one element of each input
    in turn while both have some left, then the rest of the longer one. *)
Fixpoint interleave (xs ys : list T) : list T :=
  match xs, ys with
  | x :: xs', y :: ys' => x :: y :: interleave xs' ys'
  | [], _ => ys
  | _, [] => xs
  end.

(** The store while the result list is being built on top of [h0]: the
    cells of [h0] are all still there, unchanged, followed by the new
    header and by the new nodes, which make up the result's chain. *)
Definition building (h0 h : heap T) acc : Prop :=
  exists R extra,
    lists h = lists h0 ++ [R] /\ nodes h = nodes h0 ++ extra /\
    list_rep h R acc /\ Forall (fun a => length (nodes h0) <= a)%nat acc.*1.

(** [frames m c]: whenever [c] returns, no list header other than the one
    at address [m] has changed, and no header was added. *)
Definition frames {A} m (c : M T A) : Prop :=
  forall h x h', c h = Ok x h' ->
    length (lists h') = length (lists h) /\
    forall a, a <> m -> lists h' !! a = lists h !! a.

(** The value a run returns, if it returns. *)
Definition result {S A} (o : outcome S A) : option A :=
  match o with
  | Ok a _ => Some a
  | _ => None
  end.
End Vocabulary.

(** ** Concrete stores and runs *)

(** [==] on Go's [int]. *)
#[export] Instance Z_GoEq : GoEq Z := Z.eqb.

Definition empty_store : heap Z := Heap [] [].

(** A store with two lists: header 0 holds [1 3 5] and header 1 holds [2 4]. *)
Definition list_135 : LinkedList := Header (Some 0%nat) (Some 2%nat) 3.
Definition list_24 : LinkedList := Header (Some 3%nat) (Some 4%nat) 2.
Definition cells_135 : list (loc * Z) := [(0%nat, 1); (1%nat, 3); (2%nat, 5)].
Definition cells_24 : list (loc * Z) := [(3%nat, 2); (4%nat, 4)].
Definition two_lists : heap Z :=
  Heap [Node 1 (Some 1%nat); Node 3 (Some 2%nat); Node 5 None;
        Node 2 (Some 4%nat); Node 4 None]
       [list_135; list_24].

Section Runs.
Local Open Scope go_scope.

(** [l := NewLinkedList(); l.Append(7); l.Get(-1)] *)
Definition run_Get_negative : M Z (Z * option error) :=
  let* l := NewLinkedList in
  Append l 7 ;;
  Get 0 l (-1).

(** [b := NewLinkedList(); b.Append(1); b.ConcatenarListas(nil, b)] *)
Definition run_Concatenar_nil : M Z ptr :=
  let* b := NewLinkedList in
  Append b 1 ;;
  ConcatenarListas b None b.

(** [l.Append(1); l.Remove(1)], then the header of [l]. *)
Definition run_Remove_only : M Z LinkedList :=
  let* l := NewLinkedList in
  Append l 1 ;;
  (Remove l 1) ;;
  load_list l.

(** [l.Append(1); l.InsertAt(2, 1)], then the header of [l] and the
    [next] field of its tail node. *)
Definition run_InsertAt_end : M Z (LinkedList * ptr) :=
  let* l := NewLinkedList in
  Append l 1 ;;
  InsertAt l 2 1 ;;
  let* L := load_list l in
  let* nx := get_next (tail L) in
  ret (L, nx).

(** [l.Append(1); l.InsertAt(9, 2)], with the header of [l] and its
    rendering before and after the [InsertAt]. *)
Definition run_InsertAt_beyond : M Z ((LinkedList * string) * (LinkedList * string)) :=
  let* l := NewLinkedList in
  Append l 1 ;;
  let* L := load_list l in
  let* s := String pretty l in
  InsertAt l 9 2 ;;
  let* L' := load_list l in
  let* s' := String pretty l in
  ret ((L, s), (L', s')).

(** [l.Append(1); l.Append(2)], then [l.Append(1); l.Remove(1)], with the
    rendering before and after the pair. *)
Definition run_Append_Remove : M Z (string * string) :=
  let* l := NewLinkedList in
  Appends l [1; 2] ;;
  let* s := String pretty l in
  Append l 1 ;;
  (Remove l 1) ;;
  let* s' := String pretty l in
  ret (s, s').

(** [l.Append(1); l.Append(1); l.Search(1)] *)
Definition run_Search_duplicate : M Z Z :=
  let* l := NewLinkedList in
  Appends l [1; 1] ;;
  (Search l 1).

(** [a.Append(1); b.Append(2); a.ConcatenarListas(a, b)], with the header
    of the receiver [a] before and after the call. *)
Definition run_Concatenar_receiver : M Z (LinkedList * LinkedList) :=
  let* a := NewLinkedList in
  let* b := NewLinkedList in
  Append a 1 ;;
  Append b 2 ;;
  let* L := load_list a in
  ConcatenarListas a a b ;;
  let* L' := load_list a in
  ret (L, L').

(** [a.Append(1); a.InsertAt(2, 1)], [b.Append(3); b.Append(4)] and
    [r := a.ConcatenarListas(a, b)], with the renderings of [a] and [b]
    before the call and of [r] after it. *)
Definition run_Concatenar_stale : M Z (string * string * string) :=
  let* a := NewLinkedList in
  let* b := NewLinkedList in
  Append a 1 ;;
  InsertAt a 2 1 ;;
  Appends b [3; 4] ;;
  let* sa := String pretty a in
  let* sb := String pretty b in
  let* r := ConcatenarListas a a b in
  let* sr := String pretty r in
  ret (sa, sb, sr).

(** [a.Append(1); a.Append(2); r := a.ConcatenarListas(a, a); r.String()] *)
Definition run_Concatenar_self : M Z string :=
  let* a := NewLinkedList in
  Appends a [1; 2] ;;
  let* r := ConcatenarListas a a a in
  String pretty r.
End Runs.

(** ** Vocabulary of the further properties *)

Section MoreVocabulary.
Context {T : Type} `{GoEq T}.
Local Open Scope go_scope.

(** [keeps R c]: whenever [c] returns, the store before and the store after
    are related by [R]. *)
Definition keeps {A} (R : heap T -> heap T -> Prop) (c : M T A) : Prop :=
  forall h x h', c h = Ok x h' -> R h h'.

(** [relinked h h']: [h'] has the cells of [h], every node with the value it
    had and every header with the [tail] it had; only [next] links, [head]
    and [size] fields may differ. *)
Definition relinked (h h' : heap T) : Prop :=
  length (nodes h') = length (nodes h) /\
  (forall a n, nodes h !! a = Some n ->
     exists n', nodes h' !! a = Some n' /\ value n' = value n) /\
  length (lists h') = length (lists h) /\
  (forall a L, lists h !! a = Some L ->
     exists L', lists h' !! a = Some L' /\ tail L' = tail L).

(** A call of one of the two insertions that take no position. *)
Inductive op := OpAppend (v : T) | OpPrepend (v : T).

Definition run_op (l : ptr) (o : op) : M T unit :=
  match o with
  | OpAppend v => Append l v
  | OpPrepend v => Prepend l v
  end.

Fixpoint run_ops (l : ptr) (os : list op) : M T unit :=
  match os with
  | [] => ret tt
  | o :: os' => run_op l o ;; run_ops l os'
  end.

(** The element sequence such a call is meant to produce. *)
Definition apply_op (xs : list T) (o : op) : list T :=
  match o with
  | OpAppend v => xs ++ [v]
  | OpPrepend v => v :: xs
  end.

(** [l.size++], [k] times over. *)
Definition incr_times (k : nat) (s : Z) : Z := Nat.iter k (fun z => wrap (z + 1)) s.
End MoreVocabulary.

(** A store whose only list holds the single value 4. *)
Definition list_4 : LinkedList := Header (Some 0%nat) (Some 0%nat) 1.
Definition one_store : heap Z := Heap [Node 4 None] [list_4].

(** Three insertions at the ends: [Append(1); Prepend(2); Append(3)]. *)
Definition three_ops : list (@op Z) := [OpAppend 1; OpPrepend 2; OpAppend 3].

(** A store whose only list holds [1 3 5] under a [size] field of 40. *)
Definition list_stale : LinkedList := Header (Some 0%nat) (Some 2%nat) 40.
Definition stale_store : heap Z :=
  Heap [Node 1 (Some 1%nat); Node 3 (Some 2%nat); Node 5 None] [list_stale].

(** ** Representation of a chain of nodes in the store *)

Section Chains.
Context {T : Type}.
Implicit Types (ns : list (node T)) (p q : ptr) (cs : list (loc * T)).

Lemma lseg_app ns p cs1 cs2 q :
  lseg ns p (cs1 ++ cs2) q <-> exists m, lseg ns p cs1 m /\ lseg ns m cs2 q.
Proof.
  revert p. induction cs1 as [|c cs1 IH]; intros p; simpl.
  - split; [intros Hl; exists p; auto | intros (m & -> & Hl); exact Hl].
  - split.
    + intros (-> & nx & Hn & Hl). apply IH in Hl as (m & H1 & H2).
      exists m. split; [split; [reflexivity | exists nx; auto] | exact H2].
    + intros (m & (-> & nx & Hn & H1) & H2). split; [reflexivity|].
      exists nx. split; [exact Hn|]. apply IH. exists m; auto.
Qed.

Lemma lseg_frame ns ns' p cs q :
  (forall a, a ∈ cs.*1 -> ns' !! a = ns !! a) ->
  lseg ns p cs q -> lseg ns' p cs q.
Proof.
  revert p. induction cs as [|c cs IH]; intros p Hf; simpl; [auto|].
  intros (-> & nx & Hn & Hl). split; [reflexivity|]. exists nx. split.
  - rewrite Hf; [exact Hn | simpl; left].
  - apply IH; [|exact Hl]. intros a Ha. apply Hf. simpl. right. exact Ha.
Qed.

Lemma lseg_bound ns p cs q a :
  lseg ns p cs q -> a ∈ cs.*1 -> (a < length ns)%nat.
Proof.
  revert p. induction cs as [|c cs IH]; intros p; simpl.
  - intros _ Ha. inversion Ha.
  - intros (-> & nx & Hn & Hl) Ha. apply elem_of_cons in Ha as [-> | Ha].
    + eapply lookup_lt_Some. exact Hn.
    + eapply IH; eauto.
Qed.

Lemma lseg_lookup ns p cs q k a x :
  lseg ns p cs q -> cs !! k = Some (a, x) ->
  exists nx, ns !! a = Some (Node x nx).
Proof.
  revert p k. induction cs as [|c cs IH]; intros p k; simpl; [intros _ Hk; inversion Hk|].
  intros (-> & nx & Hn & Hl) Hk. destruct k as [|k]; simpl in Hk.
  - injection Hk as ->. exists nx. exact Hn.
  - eapply IH; eauto.
Qed.

(** The store is a function: a pointer starts at most one nil-ended chain. *)
Lemma chain_func ns p cs cs' : chain ns p cs -> chain ns p cs' -> cs = cs'.
Proof.
  unfold chain. revert p cs'. induction cs as [|c cs IH]; intros p [|c' cs']; simpl.
  - reflexivity.
  - intros -> (Hp & _). discriminate Hp.
  - intros (-> & _) Hp. discriminate Hp.
  - intros (-> & nx & Hn & Hl) (Hp & nx' & Hn' & Hl').
    injection Hp as Hp. destruct c as [a x], c' as [a' x']; simpl in *. subst a'.
    rewrite Hn in Hn'. injection Hn' as -> ->. f_equal. eapply IH; eauto.
Qed.

(** Hence a nil-ended chain never visits a cell twice ... *)
Lemma chain_NoDup ns p cs : chain ns p cs -> NoDup cs.*1.
Proof.
  unfold chain. revert p. induction cs as [|c cs IH]; intros p; simpl.
  - intros _. constructor.
  - intros (-> & nx & Hn & Hl). constructor; [|eapply IH; exact Hl].
    intros Hin. apply list_elem_of_fmap in Hin as ([a x] & Ha & Hin). simpl in Ha.
    apply list_elem_of_split in Hin as (l1 & l2 & ->).
    pose proof Hl as Hl'. apply lseg_app in Hl' as (m & _ & H2).
    assert (Hc : chain ns (Some c.1) (c :: l1 ++ (a, x) :: l2)).
    { split; [reflexivity|]. exists nx. auto. }
    simpl in H2. destruct H2 as (-> & H2). simpl in Ha. subst a.
    assert (Hc' : chain ns (Some c.1) ((c.1, x) :: l2)) by (split; auto).
    pose proof (chain_func _ _ _ _ Hc Hc') as Heq.
    apply (f_equal length) in Heq. simpl in Heq. rewrite length_app in Heq.
    simpl in Heq. lia.
Qed.

(** ... and is no longer than the store has cells: the store size is
    enough fuel to walk it. *)
Lemma chain_length ns p cs : chain ns p cs -> (length cs <= length ns)%nat.
Proof.
  intros Hc. pose proof (chain_NoDup _ _ _ Hc) as Hnd.
  assert (Hsub : cs.*1 ⊆+ seq 0 (length ns)).
  { apply NoDup_submseteq; [exact Hnd|]. intros a Ha.
    apply elem_of_seq. split; [lia|]. simpl. eapply lseg_bound; eauto. }
  apply submseteq_length in Hsub. rewrite length_fmap, length_seq in Hsub. exact Hsub.
Qed.
End Chains.

(** ** Running the primitive steps *)

Create HintDb go discriminated.

Section Steps.
Context {T : Type}.
Implicit Types (h : heap T) (n : node T) (L : LinkedList).

Lemma bind_ok {A B} (c : M T A) (k : A -> M T B) h a h' :
  c h = Ok a h' -> bind c k h = k a h'.
Proof. unfold bind. intros ->. reflexivity. Qed.

Lemma get_value_ok h a n :
  nodes h !! a = Some n -> get_value (Some a) h = Ok (value n) h.
Proof. intros Hn. unfold get_value, bind, load_node. rewrite Hn. reflexivity. Qed.

Lemma get_next_ok h a n :
  nodes h !! a = Some n -> get_next (Some a) h = Ok (next n) h.
Proof. intros Hn. unfold get_next, bind, load_node. rewrite Hn. reflexivity. Qed.

Lemma get_head_ok h l L :
  lists h !! l = Some L -> get_head (Some l) h = Ok (head L) h.
Proof. intros Hl. unfold get_head, bind, load_list. rewrite Hl. reflexivity. Qed.

Lemma get_tail_ok h l L :
  lists h !! l = Some L -> get_tail (Some l) h = Ok (tail L) h.
Proof. intros Hl. unfold get_tail, bind, load_list. rewrite Hl. reflexivity. Qed.

Lemma get_size_ok h l L :
  lists h !! l = Some L -> get_size (Some l) h = Ok (size L) h.
Proof. intros Hl. unfold get_size, bind, load_list. rewrite Hl. reflexivity. Qed.

Lemma set_next_ok h a n q :
  nodes h !! a = Some n ->
  set_next (Some a) q h = Ok tt (Heap (<[a := Node (value n) q]> (nodes h)) (lists h)).
Proof. intros Hn. unfold set_next, store_node. rewrite Hn. reflexivity. Qed.

Lemma set_head_ok h l L q :
  lists h !! l = Some L ->
  set_head (Some l) q h
  = Ok tt (Heap (nodes h) (<[l := Header q (tail L) (size L)]> (lists h))).
Proof. intros Hl. unfold set_head, store_list. rewrite Hl. reflexivity. Qed.

Lemma set_tail_ok h l L q :
  lists h !! l = Some L ->
  set_tail (Some l) q h
  = Ok tt (Heap (nodes h) (<[l := Header (head L) q (size L)]> (lists h))).
Proof. intros Hl. unfold set_tail, store_list. rewrite Hl. reflexivity. Qed.

Lemma set_size_ok h l L z :
  lists h !! l = Some L ->
  set_size (Some l) z h
  = Ok tt (Heap (nodes h) (<[l := Header (head L) (tail L) z]> (lists h))).
Proof. intros Hl. unfold set_size, store_list. rewrite Hl. reflexivity. Qed.

Lemma incr_size_ok h l L :
  lists h !! l = Some L ->
  incr_size (Some l) h
  = Ok tt (Heap (nodes h)
             (<[l := Header (head L) (tail L) (wrap (size L + 1))]> (lists h))).
Proof.
  intros Hl. unfold incr_size. rewrite (bind_ok _ _ _ _ _ (get_size_ok _ _ _ Hl)).
  apply set_size_ok. exact Hl.
Qed.

Lemma decr_size_ok h l L :
  lists h !! l = Some L ->
  decr_size (Some l) h
  = Ok tt (Heap (nodes h)
             (<[l := Header (head L) (tail L) (wrap (size L - 1))]> (lists h))).
Proof.
  intros Hl. unfold decr_size. rewrite (bind_ok _ _ _ _ _ (get_size_ok _ _ _ Hl)).
  apply set_size_ok. exact Hl.
Qed.
End Steps.

#[export] Hint Resolve get_value_ok get_next_ok get_head_ok get_tail_ok get_size_ok
  set_next_ok set_head_ok set_tail_ok set_size_ok incr_size_ok decr_size_ok : go.

(** Run the first step of a sequence whose outcome the hints determine. *)
Ltac step := erewrite bind_ok by (simpl; eauto with go).

(** ** Positional lookup *)

Section GetProofs.
Context {T : Type} `{GoEq T}.
Variable zero : T.
Implicit Types (h : heap T) (cs : list (loc * T)).

Lemma Get_loop_chain h cs : forall p fuel position,
  chain (nodes h) p cs -> (Z.to_nat position <= fuel)%nat ->
  Get_loop fuel p position h = Ok (fst <$> cs !! Z.to_nat position) h.
Proof.
  induction cs as [|c cs IH]; intros p fuel position Hc Hf.
  - unfold chain in Hc. simpl in Hc. subst p. destruct fuel; reflexivity.
  - destruct Hc as (-> & nx & Hn & Hc).
    assert (Hun : forall f, Get_loop f (Some c.1) position h =
      if 0 <? position then
        match f with
        | O => Diverge
        | S f' => bind (get_next (Some c.1)) (fun nx => Get_loop f' nx (position - 1)) h
        end
      else Ok (Some c.1) h) by (intros [|f]; simpl; destruct (0 <? position); reflexivity).
    rewrite Hun. destruct (Z.ltb_spec 0 position) as [Hp|Hp].
    + destruct fuel as [|fuel]; [lia|]. step. simpl.
      rewrite (IH nx fuel (position - 1)) by (auto; lia).
      replace (Z.to_nat position) with (S (Z.to_nat (position - 1))) by lia.
      reflexivity.
    + replace (Z.to_nat position) with O by lia. reflexivity.
Qed.

(** A negative position never enters the loop: on a list with a first
    node, [Get] returns that node's value and a [nil] error. *)
Lemma Get_negative h l L a n position :
  lists h !! l = Some L -> head L = Some a -> nodes h !! a = Some n ->
  position < 0 ->
  Get zero (Some l) position h = Ok (value n, None) h.
Proof.
  intros Hl Hh Hn Hp. unfold Get. step. rewrite Hh.
  replace (Z.to_nat position) with O by lia. simpl Get_loop.
  destruct (Z.ltb_spec 0 position) as [Hlt|_]; [lia|].
  unfold ret at 1. unfold bind at 1. step. reflexivity.
Qed.

End GetProofs.

(** ** Rendering and search *)

Lemma wrap_small z : - 2 ^ 63 <= z < 2 ^ 63 -> wrap z = z.
Proof.
  unfold wrap, intSize. change (2 ^ (64 - 1)) with (2 ^ 63). intros Hz.
  rewrite Z.mod_small by lia. lia.
Qed.

Lemma append_cons c (s1 s2 : string) :
  String.String c s1 +:+ s2 = String.String c (s1 +:+ s2).
Proof. reflexivity. Qed.

Lemma append_assoc (s1 s2 s3 : string) : (s1 +:+ s2) +:+ s3 = s1 +:+ (s2 +:+ s3).
Proof.
  induction s1 as [|c s1 IH]; [reflexivity|]. rewrite !append_cons, IH. reflexivity.
Qed.

Lemma append_nil_r (s : string) : s +:+ "" = s.
Proof.
  induction s as [|c s IH]; [reflexivity|]. rewrite append_cons, IH. reflexivity.
Qed.

Section Queries.
Context {T : Type} `{GoEq T}.
Variable show : T -> string.
Implicit Types (h : heap T) (cs : list (loc * T)) (vs : list T).

Lemma first_index_lookup v vs i x :
  vs !! i = Some x -> go_eqb x v = true ->
  (forall j y, (j < i)%nat -> vs !! j = Some y -> go_eqb y v = false) ->
  first_index v vs = Some i.
Proof.
  revert i. induction vs as [|z vs IH]; intros i Hi Hx Hj; [inversion Hi|].
  cbn [first_index]. destruct i as [|i].
  - simpl in Hi. injection Hi as ->. rewrite Hx. reflexivity.
  - rewrite (Hj O z ltac:(lia) eq_refl). simpl in Hi.
    rewrite (IH i Hi Hx); [reflexivity|]. intros j y Hlt Hy.
    apply (Hj (S j) y); [lia | exact Hy].
Qed.

Lemma String_loop_chain h cs : forall p fuel acc,
  chain (nodes h) p cs -> (length cs <= fuel)%nat ->
  String_loop show fuel p acc h = Ok (acc +:+ spaced (show <$> cs.*2)) h.
Proof.
  induction cs as [|c cs IH]; intros p fuel acc Hc Hf.
  - unfold chain in Hc. simpl in Hc. subst p. simpl. rewrite append_nil_r.
    destruct fuel; reflexivity.
  - destruct Hc as (-> & nx & Hn & Hc). destruct fuel as [|fuel]; [simpl in Hf; lia|].
    simpl String_loop. do 2 step. simpl in Hf.
    rewrite (IH nx fuel) by (auto; lia). f_equal.
    destruct cs as [|c' cs'].
    + unfold chain in Hc. simpl in Hc. subst nx. simpl. rewrite append_nil_r.
      reflexivity.
    + destruct Hc as (-> & _). cbn [next value].
      change (spaced (show <$> (c :: c' :: cs').*2))
        with (show c.2 +:+ " " +:+ spaced (show <$> (c' :: cs').*2)).
      rewrite !append_assoc. reflexivity.
Qed.

Lemma String_chain h l L cs :
  lists h !! l = Some L -> chain (nodes h) (head L) cs ->
  String show (Some l) h = Ok (render show cs.*2) h.
Proof.
  intros Hl Hc. unfold String. step. destruct cs as [|c cs'].
  - unfold chain in Hc. simpl in Hc. rewrite Hc. reflexivity.
  - pose proof Hc as (Hh & _). rewrite Hh in Hc |- *. unfold heap_size at 1.
    unfold bind at 1. pose proof (chain_length _ _ _ Hc) as Hlen.
    erewrite bind_ok by (apply String_loop_chain; eauto). unfold render.
    rewrite append_assoc. reflexivity.
Qed.

Lemma Search_loop_chain h v cs : forall p fuel position,
  chain (nodes h) p cs -> (length cs <= fuel)%nat ->
  0 <= position -> position + Z.of_nat (length cs) < 2 ^ 63 ->
  Search_loop fuel v p position h
  = Ok (match first_index v cs.*2 with
        | Some k => position + Z.of_nat k
        | None => -1
        end) h.
Proof.
  induction cs as [|c cs IH]; intros p fuel position Hc Hf H0 Hmax.
  - unfold chain in Hc. simpl in Hc. subst p. destruct fuel; reflexivity.
  - destruct Hc as (-> & nx & Hn & Hc). destruct fuel as [|fuel]; [simpl in Hf; lia|].
    simpl Search_loop. step. cbn [length] in Hf, Hmax. cbn [value fmap list_fmap first_index].
    destruct (go_eqb c.2 v) eqn:Heq.
    + unfold ret. f_equal. lia.
    + step. cbn [next]. rewrite wrap_small by lia. rewrite (IH nx fuel) by (auto; lia).
      destruct (first_index v cs.*2); simpl; f_equal; lia.
Qed.

Lemma Search_chain h l L cs v :
  lists h !! l = Some L -> chain (nodes h) (head L) cs ->
  Z.of_nat (length cs) < 2 ^ 63 ->
  (Search (Some l) v h)
  = Ok (match first_index v cs.*2 with Some k => Z.of_nat k | None => -1 end) h.
Proof.
  intros Hl Hc Hmax. unfold Search. step. destruct cs as [|c cs'].
  - unfold chain in Hc. simpl in Hc. rewrite Hc. reflexivity.
  - pose proof Hc as (Hh & _). rewrite Hh in Hc |- *. unfold heap_size at 1.
    unfold bind at 1. pose proof (chain_length _ _ _ Hc) as Hlen.
    rewrite (Search_loop_chain h v (c :: cs')) by (auto; lia).
    destruct (first_index v (c :: cs').*2); reflexivity.
Qed.
End Queries.

(** ** Lists in the store and insertion at the back *)

Section Building.
Context {T : Type} `{GoEq T}.
Implicit Types (h : heap T) (cs : list (loc * T)) (L : LinkedList).

Lemma Append_run h l L cs v :
  lists h !! l = Some L -> list_rep h L cs ->
  Append (Some l) v h = Ok tt (Append_result h l L cs v).
Proof.
  intros Hl (Hc & Ht). pose proof (lookup_lt_Some _ _ _ Hl) as Hlt.
  unfold Append, Append_result.
  destruct cs as [|c0 cs0].
  - unfold chain in Hc. simpl in Hc.
    unfold newNode, alloc_node, get_head, set_head, set_tail, incr_size, get_size,
      set_size, load_list, store_list, bind, ret. simpl. rewrite Hl, Hc. simpl.
    rewrite Hl. simpl.
    repeat (rewrite list_lookup_insert_eq by (rewrite ?length_insert; lia); simpl).
    rewrite !list_insert_insert_eq. reflexivity.
  - pose proof Hc as (Hh & _). specialize (Ht ltac:(discriminate)).
    destruct (last (c0 :: cs0)) as [c|] eqn:Hlast;
      [|apply last_None in Hlast; discriminate Hlast].
    apply last_Some in Hlast as (pre & Hpre). rewrite Hpre in Hc.
    apply lseg_app in Hc as (m & _ & -> & nx & Hn & Hnil). simpl in Hnil, Ht.
    subst nx. pose proof (lookup_lt_Some _ _ _ Hn) as Hlt'.
    unfold newNode, alloc_node, get_head, get_tail, set_next, set_tail, incr_size,
      get_size, set_size, load_list, store_list, load_node, store_node, bind, ret.
    simpl. rewrite Hl, Hh. simpl. rewrite Hl, Ht. simpl.
    rewrite lookup_app_l by lia. rewrite Hn. simpl. rewrite Hl. simpl.
    repeat (rewrite list_lookup_insert_eq by (rewrite ?length_insert; lia); simpl).
    rewrite !list_insert_insert_eq, insert_app_l by lia. rewrite Hh. reflexivity.
Qed.

(** [Append] extends the chain by one fresh cell and keeps the list
    well formed. *)
Lemma Append_result_rep h l L cs v L' :
  lists h !! l = Some L -> list_rep h L cs ->
  lists (Append_result h l L cs v) !! l = Some L' ->
  list_rep (Append_result h l L cs v) L' (cs ++ [(length (nodes h), v)]).
Proof.
  intros Hl (Hc & Ht) Hl'. pose proof (lookup_lt_Some _ _ _ Hl) as Hlt.
  unfold Append_result in *. simpl in Hl'.
  rewrite list_lookup_insert_eq in Hl' by lia. injection Hl' as <-.
  split; simpl.
  - destruct cs as [|c0 cs0].
    + simpl. split; [reflexivity|]. exists None. split; [|reflexivity].
      cbn [fst snd]. rewrite lookup_app_r by lia. rewrite Nat.sub_diag. reflexivity.
    + pose proof (chain_NoDup _ _ _ Hc) as Hnd.
      destruct (last (c0 :: cs0)) as [c|] eqn:Hlast;
        [|apply last_None in Hlast; discriminate Hlast].
      apply last_Some in Hlast as (pre & Hpre). rewrite Hpre in Hc, Hnd |- *.
      pose proof Hc as Hc0.
      apply lseg_app in Hc as (m & Hpre_seg & -> & nx & Hn & Hnil).
      simpl in Hnil. subst nx. pose proof (lookup_lt_Some _ _ _ Hn) as Hlt'.
      rewrite <- app_assoc. apply lseg_app. exists (Some c.1). split.
      * eapply lseg_frame; [|exact Hpre_seg]. intros a Ha.
        rewrite fmap_app in Hnd. apply NoDup_app in Hnd as (_ & Hdis & _).
        assert (a <> c.1) by (intros ->; apply (Hdis _ Ha); simpl; left).
        assert (a < length (nodes h))%nat.
        { eapply lseg_bound; [exact Hc0|]. rewrite fmap_app. apply elem_of_app. auto. }
        rewrite lookup_app_l by (rewrite length_insert; lia).
        apply list_lookup_insert_ne. congruence.
      * simpl. split; [reflexivity|]. exists (Some (length (nodes h))). split.
        { rewrite lookup_app_l by (rewrite length_insert; lia).
          apply list_lookup_insert_eq. lia. }
        split; [reflexivity|]. exists None. split; [|reflexivity]. cbn [fst snd].
        rewrite lookup_app_r by (rewrite length_insert; lia).
        rewrite length_insert, Nat.sub_diag. reflexivity.
  - intros _. rewrite last_snoc. reflexivity.
Qed.
End Building.

Section AppendAll.
Context {T : Type} `{GoEq T}.
Variable show : T -> string.
Implicit Types (h : heap T) (cs : list (loc * T)) (L : LinkedList) (vs : list T).

Lemma Append_result_lookup h l L cs v :
  lists h !! l = Some L -> is_Some (lists (Append_result h l L cs v) !! l).
Proof.
  intros Hl. apply lookup_lt_is_Some. unfold Append_result. simpl.
  rewrite length_insert. eapply lookup_lt_Some. exact Hl.
Qed.

Lemma Appends_run vs : forall h l L cs,
  lists h !! l = Some L -> list_rep h L cs ->
  exists h' L' cs',
    Appends (Some l) vs h = Ok tt h' /\ lists h' !! l = Some L' /\
    list_rep h' L' (cs ++ cs') /\ cs'.*2 = vs.
Proof.
  induction vs as [|v vs IH]; intros h l L cs Hl Hrep.
  - exists h, L, []. rewrite app_nil_r. auto.
  - destruct (Append_result_lookup h l L cs v Hl) as (L1 & Hl1).
    pose proof (Append_result_rep h l L cs v L1 Hl Hrep Hl1) as Hrep1.
    destruct (IH _ _ _ _ Hl1 Hrep1) as (h' & L' & cs' & Hrun & Hl' & Hrep' & Hvs).
    exists h', L', ((length (nodes h), v) :: cs'). repeat split.
    + simpl. erewrite bind_ok by (eapply Append_run; eauto). exact Hrun.
    + exact Hl'.
    + rewrite <- app_assoc in Hrep'. apply Hrep'.
    + rewrite <- app_assoc in Hrep'. apply Hrep'.
    + rewrite <- Hvs. reflexivity.
Qed.

(** C6, as the code has it.  Appending [v1 .. vn] in order to a fresh
    list gives a list that renders as [[v1 v2 ... vn]] ([[]] when there
    are none), and [Search] returns the zero-based position of the first
    element that is [==] to its argument: that is [i-1] for [vi] whenever
    [vi == vi] holds (it does for every value but a floating-point NaN) and
    none of [v1 .. v(i-1)] is [==] to [vi].  The element count is that of a
    Go [int]. *)
Theorem Appends_String_Search (h : heap T) vs :
  Z.of_nat (length vs) < 2 ^ 63 ->
  exists l h1 h2,
    NewLinkedList h = Ok (Some l) h1 /\
    Appends (Some l) vs h1 = Ok tt h2 /\
    String show (Some l) h2 = Ok (render show vs) h2 /\
    forall i v, vs !! i = Some v -> go_eqb v v = true ->
      (forall j y, (j < i)%nat -> vs !! j = Some y -> go_eqb y v = false) ->
      (Search (Some l) v h2) = Ok (Z.of_nat i) h2.
Proof.
  intros Hmax. set (l := length (lists h)).
  set (h1 := Heap (nodes h) (lists h ++ [Header None None 0])).
  assert (Hl : lists h1 !! l = Some (Header None None 0)).
  { unfold h1, l. simpl. rewrite lookup_app_r by lia. rewrite Nat.sub_diag.
    reflexivity. }
  assert (Hrep : list_rep h1 (Header None None 0) []).
  { split; [reflexivity | intros Hne; congruence]. }
  destruct (Appends_run vs _ _ _ _ Hl Hrep) as (h2 & L' & cs' & Hrun & Hl' & Hrep' & Hvs).
  simpl in Hrep'. destruct Hrep' as (Hc & _).
  exists l, h1, h2. split; [reflexivity|]. split; [exact Hrun|]. split.
  - rewrite <- Hvs. eapply String_chain; eauto.
  - intros i v Hi Hv Hj. erewrite Search_chain; eauto.
    + rewrite Hvs. rewrite (first_index_lookup v vs i v Hi Hv Hj). reflexivity.
    + rewrite <- Hvs, length_fmap in Hmax. exact Hmax.
Qed.
End AppendAll.

(** ** Removal *)

Section Removal.
Context {T : Type} `{GoEq T}.
Implicit Types (h : heap T) (cs : list (loc * T)) (L : LinkedList).

Lemma Remove_loop_chain l L v cs : forall a x fuel h,
  lists h !! l = Some L ->
  chain (nodes h) (Some a) ((a, x) :: cs) ->
  (length cs <= fuel)%nat ->
  exists h',
    Remove_loop fuel (Some l) v (Some a) h = Ok tt h' /\
    chain (nodes h') (Some a) ((a, x) :: remove_first v cs) /\
    (forall b, b ∉ ((a, x) :: cs).*1 -> nodes h' !! b = nodes h !! b) /\
    exists L', lists h' !! l = Some L' /\ head L' = head L.
Proof.
  induction cs as [|[b y] cs IH]; intros a x fuel h Hl Hc Hf.
  - exists h. pose proof Hc as (_ & nx & Hn & Hnil). simpl in Hn, Hnil. subst nx.
    split; [|split; [exact Hc | split; [reflexivity | eauto]]].
    destruct fuel; simpl Remove_loop;
      rewrite (bind_ok _ _ _ _ _ (get_next_ok _ _ _ Hn)); reflexivity.
  - pose proof (chain_NoDup _ _ _ Hc) as Hnd.
    pose proof Hc as (_ & nx & Hn & Hc1). simpl in Hn. pose proof Hc1 as (Hnx & nn & Hb & Hc2).
    simpl in Hnx, Hb, Hc2. subst nx. destruct fuel as [|fuel]; [simpl in Hf; lia|].
    simpl in Hf. cbn [remove_first snd].
    apply NoDup_cons in Hnd as (Ha & Hnd). simpl in Ha.
    destruct (go_eqb y v) eqn:Heq.
    + eexists. split.
      { simpl Remove_loop. step. cbn [next]. step. cbn [value].
        rewrite Heq. step. cbn [next].
        erewrite bind_ok by (eapply set_next_ok; eauto).
        apply decr_size_ok. simpl. exact Hl. }
      simpl. split; [|split].
      * split; [reflexivity|]. exists nn. split.
        { apply list_lookup_insert_eq. eapply lookup_lt_Some; eauto. }
        eapply lseg_frame; [|exact Hc2]. intros c Hin.
        apply list_lookup_insert_ne. intros ->. apply Ha. simpl. right. exact Hin.
      * intros c Hin. apply list_lookup_insert_ne. intros ->. apply Hin. simpl. left.
      * eexists. split; [apply list_lookup_insert_eq; eapply lookup_lt_Some; eauto|].
        reflexivity.
    + destruct (IH b y fuel h Hl Hc1 ltac:(lia)) as (h' & Hrun & Hc' & Hframe & HL').
      exists h'. split.
      { simpl Remove_loop. step. cbn [next]. step. cbn [value].
        rewrite Heq. exact Hrun. }
      split; [|split; [|exact HL']].
      * split; [reflexivity|]. exists (Some b). split; [|exact Hc'].
        simpl. rewrite Hframe; [exact Hn | exact Ha].
      * intros c Hin. apply Hframe. intros Hin'. apply Hin. simpl. right. exact Hin'.
Qed.

Lemma Remove_chain h l L cs v :
  lists h !! l = Some L -> chain (nodes h) (head L) cs ->
  exists h' L',
    (Remove (Some l) v h) = Ok tt h' /\ lists h' !! l = Some L' /\
    chain (nodes h') (head L') (remove_first v cs).
Proof.
  intros Hl Hc. destruct cs as [|[a x] cs'].
  - unfold chain in Hc. simpl in Hc. exists h, L. split; [|split; [exact Hl|]].
    + unfold Remove. step. rewrite Hc. reflexivity.
    + rewrite Hc. reflexivity.
  - pose proof Hc as (Hh & nx & Hn & Hc1). simpl in Hh, Hn. rewrite Hh in Hc.
    cbn [remove_first snd]. destruct (go_eqb x v) eqn:Heq.
    + eexists. eexists. split.
      { unfold Remove. step. rewrite Hh. step. cbn [value].
        rewrite Heq. step. cbn [next].
        erewrite bind_ok by (eapply set_head_ok; eauto).
        apply decr_size_ok. simpl. apply list_lookup_insert_eq.
        eapply lookup_lt_Some; eauto. }
      simpl. split.
      * apply list_lookup_insert_eq. rewrite length_insert. eapply lookup_lt_Some; eauto.
      * simpl. exact Hc1.
    + pose proof (chain_length _ _ _ Hc) as Hlen. simpl in Hlen.
      destruct (Remove_loop_chain l L v cs' a x (length (nodes h)) h Hl Hc ltac:(lia))
        as (h' & Hrun & Hc' & _ & L' & HL' & HhL').
      exists h', L'. split; [|split; [exact HL'|]].
      * unfold Remove. step. rewrite Hh. step. cbn [value].
        rewrite Heq. exact Hrun.
      * rewrite HhL', Hh. exact Hc'.
Qed.
End Removal.

Section RoundTrip.
Context {T : Type} `{GoEq T}.
Variable show : T -> string.
Implicit Types (h : heap T) (cs : list (loc * T)) (L : LinkedList).

Lemma remove_first_snoc v n cs : forall pre k,
  cs.*2 = pre ++ replicate k v ->
  Forall (fun x => go_eqb x v = false) pre -> go_eqb v v = true ->
  (remove_first v (cs ++ [(n, v)])).*2 = cs.*2.
Proof.
  induction cs as [|[a x] cs IH]; intros pre k Hcs Hpre Hv.
  - cbn [app remove_first snd]. rewrite Hv. reflexivity.
  - cbn [app remove_first snd]. rewrite fmap_cons in Hcs. cbn [snd] in Hcs.
    destruct pre as [|y pre].
    + destruct k as [|k]; [discriminate Hcs|]. simpl in Hcs. injection Hcs as -> Hcs.
      rewrite Hv. rewrite fmap_app, !fmap_cons, Hcs. cbn [snd fmap list_fmap].
      clear. induction k as [|k IHk]; simpl; [reflexivity | rewrite IHk; reflexivity].
    + simpl in Hcs. injection Hcs as -> Hcs.
      apply Forall_cons in Hpre as (Hy & Hpre). rewrite Hy.
      rewrite !fmap_cons. f_equal. apply (IH pre k Hcs Hpre Hv).
Qed.

(** C5, as the code has it.  On a list whose [tail] field is its last
    node, let [v] be a value with [v == v] (every value but a
    floating-point NaN).  If the list is made of elements none of which is
    [==] to [v], followed by zero or more copies of [v] -- in particular if
    no element is [==] to [v] -- then [Append v] followed by [Remove v]
    both return and the list renders to the same string as before. *)
Theorem Append_Remove_String h l L cs v pre k :
  lists h !! l = Some L -> list_rep h L cs ->
  cs.*2 = pre ++ replicate k v ->
  Forall (fun x => go_eqb x v = false) pre -> go_eqb v v = true ->
  exists s h1 h2,
    String show (Some l) h = Ok s h /\
    Append (Some l) v h = Ok tt h1 /\
    (Remove (Some l) v h1) = Ok tt h2 /\
    String show (Some l) h2 = Ok s h2.
Proof.
  intros Hl Hrep Hcs Hpre Hv.
  destruct (Append_result_lookup h l L cs v Hl) as (L1 & Hl1).
  pose proof (Append_result_rep h l L cs v L1 Hl Hrep Hl1) as (Hc1 & _).
  destruct (Remove_chain _ _ _ _ v Hl1 Hc1) as (h2 & L2 & Hrem & Hl2 & Hc2).
  exists (render show cs.*2), (Append_result h l L cs v), h2.
  split; [apply (String_chain show h l L cs Hl); apply Hrep|].
  split; [apply Append_run; assumption|]. split; [exact Hrem|].
  rewrite <- (remove_first_snoc v (length (nodes h)) cs pre k Hcs Hpre Hv).
  eapply String_chain; eauto.
Qed.
End RoundTrip.

(** ** Concatenation *)

Section Concatenation.
Context {T : Type} `{GoEq T}.
Implicit Types (h : heap T) (cs : list (loc * T)) (L : LinkedList).

(** C9, as the code has it.  With [list1] empty the call returns [list2]
    and changes nothing; with [list2] empty it returns [list1] and changes
    nothing.  Otherwise, when [list1.tail] is the last node of [list1] and
    the two chains share no node (so the two are not the same list), it
    stores [list2.head] in the [next] of [list1]'s tail node, sets
    [list1.tail] to [list2.tail], adds the two [size] fields and returns
    [list1], whose chain is then the elements of [list1] followed by those
    of [list2]. *)
Theorem ConcatenarListas_spec (recv : ptr) h a1 a2 L1 L2 cs1 cs2 :
  lists h !! a1 = Some L1 -> lists h !! a2 = Some L2 ->
  chain (nodes h) (head L1) cs1 -> chain (nodes h) (head L2) cs2 ->
  (cs1 = [] -> ConcatenarListas recv (Some a1) (Some a2) h = Ok (Some a2) h) /\
  (cs1 <> [] -> cs2 = [] ->
     ConcatenarListas recv (Some a1) (Some a2) h = Ok (Some a1) h) /\
  (cs1 <> [] -> cs2 <> [] -> tail L1 = fst <$> last cs1 ->
   (forall a, a ∈ cs1.*1 -> a ∉ cs2.*1) ->
     exists t x h',
       last cs1 = Some (t, x) /\
       h' = Heap (<[t := Node x (head L2)]> (nodes h))
                 (<[a1 := Header (head L1) (tail L2) (wrap (size L1 + size L2))]>
                    (lists h)) /\
       ConcatenarListas recv (Some a1) (Some a2) h = Ok (Some a1) h' /\
       chain (nodes h') (head L1) (cs1 ++ cs2)).
Proof.
  intros Hl1 Hl2 Hc1 Hc2. split; [|split].
  - intros ->. unfold chain in Hc1. simpl in Hc1. unfold ConcatenarListas. step.
    rewrite Hc1. reflexivity.
  - intros Hne ->. unfold chain in Hc2. simpl in Hc2. unfold ConcatenarListas.
    destruct cs1 as [|c1 cs1']; [congruence|]. destruct Hc1 as (Hh1 & _).
    step. rewrite Hh1. step. rewrite Hc2. reflexivity.
  - intros Hne1 Hne2 Ht1 Hdis.
    pose proof (chain_NoDup _ _ _ Hc1) as Hnd. pose proof Hc1 as Hc1'.
    destruct (last cs1) as [[t x]|] eqn:Hlast; [|apply last_None in Hlast; congruence].
    apply last_Some in Hlast as (pre & ->). simpl in Ht1.
    apply lseg_app in Hc1 as (m & Hpre & -> & nx & Hn & Hnil). simpl in Hn, Hnil.
    subst nx. exists t, x. eexists. split; [reflexivity|]. split; [reflexivity|].
    assert (Hne : a1 <> a2).
    { intros ->. rewrite Hl1 in Hl2. injection Hl2 as <-.
      pose proof (chain_func _ _ _ _ Hc1' Hc2) as <-.
      apply (Hdis t); rewrite fmap_app; apply elem_of_app; right; simpl; left. }
    assert (Hh1 : exists c, head L1 = Some c).
    { destruct pre; destruct Hc1' as (Hh & _); eauto. }
    destruct Hh1 as (c1 & Hh1).
    assert (Hh2 : exists c, head L2 = Some c).
    { destruct cs2 as [|c2 cs2']; [congruence|]. destruct Hc2 as (-> & _). eauto. }
    destruct Hh2 as (c2 & Hh2).
    pose proof (lookup_lt_Some _ _ _ Hl1) as Hlt1. split.
    + unfold ConcatenarListas. step. rewrite Hh1. step. rewrite Hh2. step. rewrite Ht1.
      erewrite bind_ok by (eapply set_next_ok; eauto).
      erewrite bind_ok by (eapply get_tail_ok; simpl; eauto).
      erewrite bind_ok by (eapply set_tail_ok; simpl; eauto).
      erewrite bind_ok
        by (eapply get_size_ok; simpl; apply list_lookup_insert_eq; exact Hlt1).
      erewrite bind_ok
        by (eapply get_size_ok; simpl; rewrite list_lookup_insert_ne by exact Hne;
            exact Hl2).
      erewrite bind_ok
        by (eapply set_size_ok; simpl; apply list_lookup_insert_eq; exact Hlt1).
      unfold ret. simpl. rewrite list_insert_insert_eq, Hh1. reflexivity.
    + simpl. unfold chain. rewrite <- app_assoc. apply lseg_app. exists (Some t). split.
      * eapply lseg_frame; [|exact Hpre]. intros a Ha.
        rewrite fmap_app in Hnd. apply NoDup_app in Hnd as (_ & Hd & _).
        apply list_lookup_insert_ne. intros ->. apply (Hd _ Ha). simpl. left.
      * apply (lseg_app _ _ [(t, x)]). exists (head L2). split.
        { simpl. split; [reflexivity|]. exists (head L2). split; [|reflexivity].
          apply list_lookup_insert_eq. eapply lookup_lt_Some; eauto. }
        eapply lseg_frame; [|exact Hc2]. intros a Ha.
        apply list_lookup_insert_ne. intros Heq. subst a. apply (Hdis t); [|exact Ha].
        rewrite fmap_app. apply elem_of_app. right. simpl. left.
Qed.
End Concatenation.

(** ** Interleaving *)

Section Interleaving.
Context {T : Type} `{GoEq T}.
Implicit Types (h : heap T) (cs acc : list (loc * T)) (L : LinkedList).

Lemma interleave_nil_r (xs : list T) : interleave xs [] = xs.
Proof. destruct xs; reflexivity. Qed.

Lemma building_chain h0 h acc p cs :
  building h0 h acc -> chain (nodes h0) p cs -> chain (nodes h) p cs.
Proof.
  intros (R & extra & _ & Hn & _) Hc. eapply lseg_frame; [|exact Hc].
  intros a Ha. rewrite Hn. apply lookup_app_l. eapply lseg_bound; eauto.
Qed.

Lemma list_rep_nodes h h' L cs :
  nodes h = nodes h' -> list_rep h L cs -> list_rep h' L cs.
Proof. unfold list_rep. intros ->. auto. Qed.

Lemma building_Append h0 h acc v :
  building h0 h acc ->
  exists h', Append (Some (length (lists h0))) v h = Ok tt h' /\
             building h0 h' (acc ++ [(length (nodes h), v)]).
Proof.
  intros (R & extra & Hls & Hns & Hrep & Hfresh).
  assert (Hl : lists h !! length (lists h0) = Some R).
  { rewrite Hls, lookup_app_r by lia. rewrite Nat.sub_diag. reflexivity. }
  exists (Append_result h (length (lists h0)) R acc v).
  split; [apply Append_run; assumption|].
  destruct (Append_result_lookup h _ R acc v Hl) as (R' & Hl').
  pose proof (Append_result_rep h _ R acc v R' Hl Hrep Hl') as Hrep'.
  exists R'. unfold Append_result in Hl' |- *. simpl in Hl' |- *.
  rewrite Hls in Hl' |- *. rewrite insert_app_r_alt in Hl' |- * by lia.
  rewrite Nat.sub_diag in Hl' |- *. simpl in Hl' |- *.
  rewrite lookup_app_r in Hl' by lia. rewrite Nat.sub_diag in Hl'.
  injection Hl' as Hl'. rewrite Hl'.
  destruct (last acc) as [c|] eqn:Hlast.
  - assert (Hc : (length (nodes h0) <= c.1)%nat).
    { rewrite Forall_forall in Hfresh. apply Hfresh. apply list_elem_of_fmap.
      exists c. split; [reflexivity|]. apply last_Some in Hlast as (pre & ->).
      apply elem_of_app. right. left. }
    exists (<[c.1 - length (nodes h0) := Node c.2 (Some (length (nodes h)))]> extra
              ++ [Node v None])%nat.
    split; [reflexivity|]. split.
    + rewrite Hns at 2. rewrite insert_app_r_alt by lia. rewrite <- app_assoc.
      reflexivity.
    + split.
      { eapply list_rep_nodes; [|exact Hrep']. unfold Append_result. simpl.
        rewrite Hlast. reflexivity. }
      rewrite fmap_app. apply Forall_app. split; [exact Hfresh|].
      constructor; [|constructor]. simpl. rewrite Hns, length_app. lia.
  - exists (extra ++ [Node v None]). split; [reflexivity|]. split.
    + rewrite Hns, <- app_assoc. reflexivity.
    + split.
      { eapply list_rep_nodes; [|exact Hrep']. unfold Append_result. simpl.
        rewrite Hlast. reflexivity. }
      rewrite fmap_app. apply Forall_app. split; [exact Hfresh|].
      constructor; [|constructor]. simpl. rewrite Hns, length_app. lia.
Qed.

Lemma building_value h0 h acc a x nx :
  building h0 h acc -> nodes h0 !! a = Some (Node x nx) ->
  nodes h !! a = Some (Node x nx).
Proof.
  intros (R & extra & _ & Hn & _) Ha. rewrite Hn.
  rewrite lookup_app_l by (eapply lookup_lt_Some; eauto). exact Ha.
Qed.

Lemma Resto_loop_run h0 cs : forall p fuel h acc,
  chain (nodes h0) p cs -> (length cs <= fuel)%nat -> building h0 h acc ->
  exists h' acc',
    Resto_loop fuel (Some (length (lists h0))) p h = Ok tt h' /\
    building h0 h' acc' /\ acc'.*2 = acc.*2 ++ cs.*2.
Proof.
  induction cs as [|[a x] cs IH]; intros p fuel h acc Hc Hf Hb.
  - unfold chain in Hc. simpl in Hc. subst p. exists h, acc.
    split; [destruct fuel; reflexivity|]. split; [exact Hb|].
    rewrite app_nil_r. reflexivity.
  - destruct Hc as (-> & nx & Hn & Hc). simpl in Hn.
    destruct fuel as [|fuel]; [simpl in Hf; lia|]. simpl in Hf.
    destruct (building_Append h0 h acc x Hb) as (h1 & Hrun1 & Hb1).
    destruct (IH nx fuel h1 _ Hc ltac:(lia) Hb1) as (h' & acc' & Hrun & Hb' & Hacc).
    exists h', acc'. split; [|split; [exact Hb'|]].
    + simpl Resto_loop.
      erewrite bind_ok by (eapply get_value_ok; eapply building_value; eauto).
      cbn [value]. erewrite bind_ok by exact Hrun1.
      erewrite bind_ok by (eapply get_next_ok; eapply building_value; eauto).
      exact Hrun.
    + rewrite Hacc, fmap_app, <- app_assoc. reflexivity.
Qed.

Lemma Intercalar_loop_run h0 cs1 : forall cs2 p1 p2 fuel h acc,
  chain (nodes h0) p1 cs1 -> chain (nodes h0) p2 cs2 ->
  (length cs1 <= fuel)%nat -> building h0 h acc ->
  exists h' acc' q1 q2 r1 r2,
    Intercalar_loop fuel (Some (length (lists h0))) p1 p2 h = Ok (q1, q2) h' /\
    building h0 h' acc' /\
    chain (nodes h0) q1 r1 /\ chain (nodes h0) q2 r2 /\
    (length r1 <= length cs1)%nat /\ (length r2 <= length cs2)%nat /\
    acc'.*2 ++ r1.*2 ++ r2.*2 = acc.*2 ++ interleave cs1.*2 cs2.*2.
Proof.
  induction cs1 as [|[a1 x1] cs1 IH]; intros cs2 p1 p2 fuel h acc Hc1 Hc2 Hf Hb.
  - pose proof Hc1 as Hp1. unfold chain in Hp1. simpl in Hp1. subst p1.
    exists h, acc, None, p2, [], cs2.
    split; [destruct fuel; reflexivity|]. repeat (split; [auto; fail|]). reflexivity.
  - destruct cs2 as [|[a2 x2] cs2].
    + pose proof Hc2 as Hp2. unfold chain in Hp2. simpl in Hp2. subst p2.
      exists h, acc, p1, None, ((a1, x1) :: cs1), [].
      split; [destruct fuel, p1; reflexivity|]. repeat (split; [auto; fail|]).
      simpl. rewrite app_nil_r. reflexivity.
    + destruct Hc1 as (-> & n1 & Hn1 & Hc1). destruct Hc2 as (-> & n2 & Hn2 & Hc2).
      simpl in Hn1, Hn2. destruct fuel as [|fuel]; [simpl in Hf; lia|]. simpl in Hf.
      destruct (building_Append h0 h acc x1 Hb) as (h1 & Hrun1 & Hb1).
      destruct (building_Append h0 h1 _ x2 Hb1) as (h2 & Hrun2 & Hb2).
      destruct (IH cs2 n1 n2 fuel h2 _ Hc1 Hc2 ltac:(lia) Hb2)
        as (h' & acc' & q1 & q2 & r1 & r2 & Hrun & Hb' & Hq1 & Hq2 & Hr1 & Hr2 & Hacc).
      exists h', acc', q1, q2, r1, r2. split.
      { simpl Intercalar_loop.
        erewrite bind_ok by (eapply get_value_ok; eapply building_value; eauto).
        cbn [value]. erewrite bind_ok by exact Hrun1.
        erewrite bind_ok by (eapply get_value_ok; eapply building_value; eauto).
        cbn [value]. erewrite bind_ok by exact Hrun2.
        erewrite bind_ok by (eapply get_next_ok; eapply building_value; eauto).
        erewrite bind_ok by (eapply get_next_ok; eapply building_value; eauto).
        exact Hrun. }
      split; [exact Hb'|]. split; [exact Hq1|]. split; [exact Hq2|].
      split; [simpl; lia|]. split; [simpl; lia|].
      rewrite Hacc, !fmap_app, <- !app_assoc. reflexivity.
Qed.

(** C8. [IntercalarListas] returns [nil], and changes nothing, when
    either argument is [nil]; on two lists it returns a list that was
    not in the store before, whose nodes are all new, whose [tail] is its
    last node and whose elements are those of [list1] and [list2] taken
    in turn while both last, then the rest of the longer one; every
    cell of the store before the call, and so both inputs, is unchanged. *)
Theorem IntercalarListas_spec (recv : ptr) h :
  (forall l2, IntercalarListas recv None l2 h = Ok None h) /\
  (forall l1, IntercalarListas recv l1 None h = Ok None h) /\
  (forall a1 a2 L1 L2 cs1 cs2,
     lists h !! a1 = Some L1 -> lists h !! a2 = Some L2 ->
     chain (nodes h) (head L1) cs1 -> chain (nodes h) (head L2) cs2 ->
     exists h' R extra cs,
       IntercalarListas recv (Some a1) (Some a2) h
       = Ok (Some (length (lists h))) h' /\
       lists h' = lists h ++ [R] /\ nodes h' = nodes h ++ extra /\
       list_rep h' R cs /\
       Forall (fun a => length (nodes h) <= a)%nat cs.*1 /\
       cs.*2 = interleave cs1.*2 cs2.*2).
Proof.
  split; [reflexivity|]. split; [intros [l1|]; reflexivity|].
  intros a1 a2 L1 L2 cs1 cs2 Hl1 Hl2 Hc1 Hc2.
  set (h1 := Heap (nodes h) (lists h ++ [Header None None 0])).
  assert (Hb1 : building h h1 []).
  { exists (Header None None 0), []. split; [reflexivity|].
    split; [simpl; rewrite app_nil_r; reflexivity|].
    split; [|constructor]. split; [reflexivity | intros Hne; congruence]. }
  pose proof (chain_length _ _ _ Hc1) as Hlen1.
  pose proof (chain_length _ _ _ Hc2) as Hlen2.
  destruct (Intercalar_loop_run h cs1 cs2 _ _ (length (nodes h)) h1 [] Hc1 Hc2 Hlen1 Hb1)
    as (h2 & acc2 & q1 & q2 & r1 & r2 & Hrun2 & Hb2 & Hq1 & Hq2 & Hr1 & Hr2 & Hacc2).
  destruct (Resto_loop_run h r1 q1 (length (nodes h)) h2 acc2 Hq1 ltac:(lia) Hb2)
    as (h3 & acc3 & Hrun3 & Hb3 & Hacc3).
  destruct (Resto_loop_run h r2 q2 (length (nodes h)) h3 acc3 Hq2 ltac:(lia) Hb3)
    as (h4 & acc4 & Hrun4 & Hb4 & Hacc4).
  pose proof Hb4 as (R & extra & Hls & Hns & Hrep & Hfresh).
  exists h4, R, extra, acc4. split; [|split; [exact Hls|split; [exact Hns|]]].
  - unfold IntercalarListas. unfold bind at 1. unfold heap_size.
    unfold bind at 1. unfold alloc_list. fold h1.
    erewrite bind_ok
      by (eapply get_head_ok; simpl; rewrite lookup_app_l;
          [exact Hl1 | eapply lookup_lt_Some; eauto]).
    erewrite bind_ok
      by (eapply get_head_ok; simpl; rewrite lookup_app_l;
          [exact Hl2 | eapply lookup_lt_Some; eauto]).
    erewrite bind_ok by exact Hrun2. cbn [fst snd].
    erewrite bind_ok by exact Hrun3. erewrite bind_ok by exact Hrun4. reflexivity.
  - split; [exact Hrep|]. split; [exact Hfresh|].
    rewrite Hacc4, Hacc3, <- app_assoc, Hacc2. reflexivity.
Qed.
End Interleaving.

(** ** Which list headers a call can change *)

Section Frames.
Context {T : Type} `{GoEq T}.
Implicit Types (h : heap T) (m : loc).

Lemma frames_ret {A} m (x : A) : frames m (ret (T := T) x).
Proof. intros h y h' [= _ <-]. auto. Qed.

Lemma frames_diverge {A} m : frames m (@diverge T A).
Proof. intros h y h' Hd. discriminate Hd. Qed.

Lemma frames_bind {A B} m (c : M T A) (k : A -> M T B) :
  frames m c -> (forall a, frames m (k a)) -> frames m (bind c k).
Proof.
  intros Hc Hk h y h'' Hrun. unfold bind in Hrun.
  destruct (c h) as [a h'| |] eqn:Hch; try discriminate Hrun.
  destruct (Hc _ _ _ Hch) as (Hlen & Hsame).
  destruct (Hk a _ _ _ Hrun) as (Hlen' & Hsame').
  split; [congruence|]. intros b Hb. rewrite Hsame', Hsame by exact Hb. reflexivity.
Qed.

Lemma frames_load_node m p : frames m (load_node (T := T) p).
Proof.
  intros h y h' Hrun. unfold load_node in Hrun. destruct p as [a|]; [|discriminate].
  destruct (nodes h !! a); [|discriminate]. injection Hrun as _ <-. auto.
Qed.

Lemma frames_load_list m l : frames m (load_list (T := T) l).
Proof.
  intros h y h' Hrun. unfold load_list in Hrun. destruct l as [a|]; [|discriminate].
  destruct (lists h !! a); [|discriminate]. injection Hrun as _ <-. auto.
Qed.

Lemma frames_store_node m p f : frames m (store_node (T := T) p f).
Proof.
  intros h y h' Hrun. unfold store_node in Hrun. destruct p as [a|]; [|discriminate].
  destruct (nodes h !! a); [|discriminate]. injection Hrun as _ <-. auto.
Qed.

Lemma frames_store_list m f : frames m (store_list (T := T) (Some m) f).
Proof.
  intros h y h' Hrun. unfold store_list in Hrun.
  destruct (lists h !! m); [|discriminate]. injection Hrun as _ <-. simpl.
  split; [apply length_insert|]. intros a Ha. apply list_lookup_insert_ne. congruence.
Qed.

Lemma frames_alloc_node m n : frames m (alloc_node (T := T) n).
Proof. intros h y h' [= _ <-]. auto. Qed.

Lemma frames_heap_size m : frames m (heap_size (T := T)).
Proof. intros h y h' [= _ <-]. auto. Qed.

Hint Resolve frames_ret frames_diverge frames_load_node frames_load_list
  frames_store_node frames_store_list frames_alloc_node frames_heap_size : go.

Ltac frames_tac :=
  unfold incr_size, decr_size;
  unfold newNode, get_value, get_next, get_head, get_tail, get_size, set_head,
    set_tail, set_next, set_size;
  repeat first
    [ progress intros
    | solve [auto with go]
    | apply frames_bind
    | match goal with |- frames _ (match ?x with _ => _ end) => destruct x end ].

Lemma frames_Append m (v : T) : frames m (Append (Some m) v).
Proof.
  unfold Append. frames_tac.
Qed.

Lemma frames_Intercalar_loop m fuel : forall p1 p2,
  frames m (Intercalar_loop (T := T) fuel (Some m) p1 p2).
Proof.
  induction fuel as [|fuel IH]; intros [a1|] [a2|]; cbn [Intercalar_loop];
    auto with go.
  pose proof (frames_Append m). frames_tac.
Qed.

Lemma frames_Resto_loop m fuel : forall p,
  frames m (Resto_loop (T := T) fuel (Some m) p).
Proof.
  induction fuel as [|fuel IH]; intros [a|]; cbn [Resto_loop]; auto with go.
  pose proof (frames_Append m). frames_tac.
Qed.

Lemma frames_ConcatenarListas m (recv l2 : ptr) :
  frames m (ConcatenarListas (T := T) recv (Some m) l2).
Proof.
  unfold ConcatenarListas. frames_tac.
Qed.

(** C10, as the code has it.  Neither combination method uses its
    receiver: the outcome is the same for any receiver.  The receiver's
    header (head, tail, size) is the same after [IntercalarListas] as
    before, and the same after [ConcatenarListas] unless the receiver is
    itself passed as [list1], the list that method links and resizes. *)
Theorem receiver_untouched (recv l1 l2 : ptr) h :
  (forall recv', ConcatenarListas recv l1 l2 h = ConcatenarListas recv' l1 l2 h) /\
  (forall recv', IntercalarListas recv l1 l2 h = IntercalarListas recv' l1 l2 h) /\
  (forall r res h', recv = Some r -> is_Some (lists h !! r) ->
     IntercalarListas recv l1 l2 h = Ok res h' -> lists h' !! r = lists h !! r) /\
  (forall r res h', recv = Some r -> l1 <> Some r ->
     ConcatenarListas recv l1 l2 h = Ok res h' -> lists h' !! r = lists h !! r).
Proof.
  split; [reflexivity|]. split; [reflexivity|]. split.
  - intros r res h' -> Hr Hrun. apply lookup_lt_is_Some in Hr.
    destruct l1 as [a1|], l2 as [a2|]; try (injection Hrun as _ <-; reflexivity).
    unfold IntercalarListas in Hrun. unfold bind at 1 in Hrun. unfold heap_size in Hrun.
    unfold bind at 1 in Hrun. unfold alloc_list in Hrun.
    set (m := length (lists h)) in *.
    assert (Hfr : frames m (fun h1 : heap T =>
      (let* hd1 := get_head (Some a1) in
       let* hd2 := get_head (Some a2) in
       let* cur := Intercalar_loop (length (nodes h)) (Some m) hd1 hd2 in
       Resto_loop (length (nodes h)) (Some m) (fst cur) ;;
       Resto_loop (length (nodes h)) (Some m) (snd cur) ;;
       ret (Some m))%go h1)).
    { pose proof (frames_Intercalar_loop m). pose proof (frames_Resto_loop m).
      frames_tac. }
    destruct (Hfr _ _ _ Hrun) as (_ & Hsame). rewrite Hsame by lia. simpl.
    apply lookup_app_l. exact Hr.
  - intros r res h' -> Hne Hrun. destruct l1 as [a1|]; [|discriminate Hrun].
    destruct (frames_ConcatenarListas a1 (Some r) l2 _ _ _ Hrun) as (_ & Hsame).
    apply Hsame. congruence.
Qed.
End Frames.

(** ** The program on concrete inputs *)

Ltac chain_tac := cbn; repeat first [reflexivity | split | eexists].

(** C1. On the one-element list [[7]], [Get(-1)] returns the value 7 and
    a [nil] error; it does not fail with [InvalidPosition]. *)
Theorem Get_negative_example :
  result (run_Get_negative empty_store) = Some (7, None).
Proof. vm_compute. reflexivity. Qed.

(** C2. [ConcatenarListas] with a [nil] first list dereferences it:
    the call panics, where [IntercalarListas] returns [nil]. *)
Theorem ConcatenarListas_nil_example :
  run_Concatenar_nil empty_store = Panic /\
  (forall (recv l2 : ptr) (h : heap Z), ConcatenarListas recv None l2 h = Panic) /\
  (forall (recv l2 : ptr) (h : heap Z), IntercalarListas recv None l2 h = Ok None h).
Proof. split; [vm_compute; reflexivity|]. split; reflexivity. Qed.

(** C3. After [Append(1); Remove(1)] the list has no nodes ([head] is
    [nil]) but [tail] still points to the removed node; after
    [Append(1); InsertAt(2, 1)] [tail] still points to the first node,
    whose [next] is the inserted node and not [nil]. *)
Theorem tail_invariant_example :
  result (run_Remove_only empty_store) = Some (Header None (Some 0%nat) 0) /\
  result (run_InsertAt_end empty_store)
  = Some (Header (Some 0%nat) (Some 0%nat) 1, Some 1%nat).
Proof. split; vm_compute; reflexivity. Qed.

(** C4. On the list [[1]], [InsertAt(9, 2)] is beyond the end: the chain,
    [head] and [tail] stay as they are, but the [size] field goes from 1
    to 2. *)
Theorem InsertAt_beyond_example :
  result (run_InsertAt_beyond empty_store)
  = Some ((Header (Some 0%nat) (Some 0%nat) 1, "[1]"),
          (Header (Some 0%nat) (Some 0%nat) 2, "[1]")).
Proof. vm_compute. reflexivity. Qed.

(** C5 fails as stated: on [[1 2]], [Append(1)] then [Remove(1)] removes
    the first 1, not the appended one, and the list renders as [[2 1]]. *)
Lemma Append_Remove_String_counterexample :
  result (run_Append_Remove empty_store) = Some ("[1 2]", "[2 1]").
Proof. vm_compute. reflexivity. Qed.

(** C6 fails as stated: after appending 1 and 1, the second value sits at
    position 1 but [Search(1)] returns 0. *)
Lemma Search_duplicate_counterexample :
  [1; 1] !! 1%nat = Some 1 /\ result (run_Search_duplicate empty_store) = Some 0.
Proof. split; vm_compute; reflexivity. Qed.

(** C10 fails as stated: in [a.ConcatenarListas(a, b)] the receiver is
    [list1], and its [tail] and [size] change. *)
Lemma receiver_as_list1_counterexample :
  result (run_Concatenar_receiver empty_store)
  = Some (Header (Some 0%nat) (Some 0%nat) 1, Header (Some 0%nat) (Some 1%nat) 2).
Proof. vm_compute. reflexivity. Qed.

(** C9 fails as stated.  After [Append(1); InsertAt(2, 1)] the list
    [[1 2]] has its [tail] on the first node, and concatenating it with
    [[3 4]] gives [[1 3 4]], not [[1 2 3 4]].  And a list concatenated
    with itself becomes cyclic: rendering the result never ends. *)
Lemma ConcatenarListas_counterexample :
  result (run_Concatenar_stale empty_store) = Some ("[1 2]", "[3 4]", "[1 3 4]") /\
  run_Concatenar_self empty_store = Diverge.
Proof. split; vm_compute; reflexivity. Qed.


(** [Appends_String_Search] for the values 1, 2, 3 on the empty store. *)
Lemma Appends_String_Search_witness :
  Z.of_nat (length [1; 2; 3]) < 2 ^ 63 /\
  exists l h1 h2,
    NewLinkedList empty_store = Ok (Some l) h1 /\
    Appends (Some l) [1; 2; 3] h1 = Ok tt h2 /\
    String pretty (Some l) h2 = Ok (render pretty [1; 2; 3]) h2 /\
    forall i v, [1; 2; 3] !! i = Some v -> go_eqb v v = true ->
      (forall j y, (j < i)%nat -> [1; 2; 3] !! j = Some y -> go_eqb y v = false) ->
      (Search (Some l) v h2) = Ok (Z.of_nat i) h2.
Proof.
  assert (Hmax : Z.of_nat (length [1; 2; 3]) < 2 ^ 63) by reflexivity.
  split; [exact Hmax|].
  exact (Appends_String_Search pretty empty_store [1; 2; 3] Hmax).
Defined.

(** [Append_Remove_String] on [[1 3 5]] with the value 5, whose only
    occurrence is the last element. *)
Lemma Append_Remove_String_witness :
  lists two_lists !! 0%nat = Some list_135 /\
  list_rep two_lists list_135 cells_135 /\
  cells_135.*2 = [1; 3] ++ replicate 1 5 /\
  Forall (fun x => go_eqb x 5 = false) [1; 3] /\
  go_eqb 5 5 = true /\
  exists s h1 h2,
    String pretty (Some 0%nat) two_lists = Ok s two_lists /\
    Append (Some 0%nat) 5 two_lists = Ok tt h1 /\
    (Remove (Some 0%nat) 5 h1) = Ok tt h2 /\
    String pretty (Some 0%nat) h2 = Ok s h2.
Proof.
  assert (Hl : lists two_lists !! 0%nat = Some list_135) by reflexivity.
  assert (Hrep : list_rep two_lists list_135 cells_135)
    by (split; [chain_tac | reflexivity]).
  assert (Hcs : cells_135.*2 = [1; 3] ++ replicate 1 5) by reflexivity.
  assert (Hpre : Forall (fun x => go_eqb x 5 = false) [1; 3])
    by (repeat constructor).
  assert (Hv : go_eqb 5 5 = true) by reflexivity.
  split; [exact Hl|]. split; [exact Hrep|]. split; [exact Hcs|]. split; [exact Hpre|].
  split; [exact Hv|].
  exact (Append_Remove_String pretty two_lists 0%nat list_135 cells_135 5 [1; 3] 1%nat
           Hl Hrep Hcs Hpre Hv).
Defined.

(** [ConcatenarListas_spec] on [[1 3 5]] and [[2 4]], which share no node. *)
Lemma ConcatenarListas_spec_witness :
  lists two_lists !! 0%nat = Some list_135 /\
  lists two_lists !! 1%nat = Some list_24 /\
  chain (nodes two_lists) (head list_135) cells_135 /\
  chain (nodes two_lists) (head list_24) cells_24 /\
  cells_135 <> [] /\ cells_24 <> [] /\
  tail list_135 = fst <$> last cells_135 /\
  (forall a, a ∈ cells_135.*1 -> a ∉ cells_24.*1) /\
  exists t x h',
    last cells_135 = Some (t, x) /\
    h' = Heap (<[t := Node x (head list_24)]> (nodes two_lists))
              (<[0%nat := Header (head list_135) (tail list_24)
                            (wrap (size list_135 + size list_24))]>
                 (lists two_lists)) /\
    ConcatenarListas None (Some 0%nat) (Some 1%nat) two_lists = Ok (Some 0%nat) h' /\
    chain (nodes h') (head list_135) (cells_135 ++ cells_24).
Proof.
  assert (Hl1 : lists two_lists !! 0%nat = Some list_135) by reflexivity.
  assert (Hl2 : lists two_lists !! 1%nat = Some list_24) by reflexivity.
  assert (Hc1 : chain (nodes two_lists) (head list_135) cells_135) by chain_tac.
  assert (Hc2 : chain (nodes two_lists) (head list_24) cells_24) by chain_tac.
  assert (Hne1 : cells_135 <> []) by discriminate.
  assert (Hne2 : cells_24 <> []) by discriminate.
  assert (Ht1 : tail list_135 = fst <$> last cells_135) by reflexivity.
  assert (Hdis : forall a, a ∈ cells_135.*1 -> a ∉ cells_24.*1).
  { intros a Ha Hb. simpl in Ha, Hb.
    repeat (apply elem_of_cons in Hb as [Hb|Hb];
            [subst a; repeat (apply elem_of_cons in Ha as [Ha|Ha]; [discriminate Ha|]);
             inversion Ha|]).
    inversion Hb. }
  repeat (split; [assumption|]).
  exact (proj2 (proj2 (ConcatenarListas_spec None two_lists 0%nat 1%nat list_135 list_24
                         cells_135 cells_24 Hl1 Hl2 Hc1 Hc2)) Hne1 Hne2 Ht1 Hdis).
Defined.

(** [IntercalarListas_spec] on [[1 3 5]] and [[2 4]]. *)
Lemma IntercalarListas_spec_witness :
  lists two_lists !! 0%nat = Some list_135 /\
  lists two_lists !! 1%nat = Some list_24 /\
  chain (nodes two_lists) (head list_135) cells_135 /\
  chain (nodes two_lists) (head list_24) cells_24 /\
  exists h' R extra cs,
    IntercalarListas None (Some 0%nat) (Some 1%nat) two_lists
    = Ok (Some (length (lists two_lists))) h' /\
    lists h' = lists two_lists ++ [R] /\ nodes h' = nodes two_lists ++ extra /\
    list_rep h' R cs /\
    Forall (fun a => length (nodes two_lists) <= a)%nat cs.*1 /\
    cs.*2 = interleave cells_135.*2 cells_24.*2.
Proof.
  assert (Hl1 : lists two_lists !! 0%nat = Some list_135) by reflexivity.
  assert (Hl2 : lists two_lists !! 1%nat = Some list_24) by reflexivity.
  assert (Hc1 : chain (nodes two_lists) (head list_135) cells_135) by chain_tac.
  assert (Hc2 : chain (nodes two_lists) (head list_24) cells_24) by chain_tac.
  repeat (split; [assumption|]).
  exact (proj2 (proj2 (IntercalarListas_spec None two_lists)) 0%nat 1%nat list_135 list_24
           cells_135 cells_24 Hl1 Hl2 Hc1 Hc2).
Defined.

(** [receiver_untouched] with the list [[2 4]] as receiver and as [list2],
    and [[1 3 5]] as [list1]. *)
Lemma receiver_untouched_witness :
  is_Some (lists two_lists !! 1%nat) /\
  (Some 0%nat <> Some 1%nat) /\
  exists res1 h1 res2 h2,
    IntercalarListas (Some 1%nat) (Some 0%nat) (Some 1%nat) two_lists = Ok res1 h1 /\
    lists h1 !! 1%nat = lists two_lists !! 1%nat /\
    ConcatenarListas (Some 1%nat) (Some 0%nat) (Some 1%nat) two_lists = Ok res2 h2 /\
    lists h2 !! 1%nat = lists two_lists !! 1%nat.
Proof.
  assert (Hr : is_Some (lists two_lists !! 1%nat)) by (eexists; reflexivity).
  assert (Hne : Some 0%nat <> Some 1%nat) by discriminate.
  split; [exact Hr|]. split; [exact Hne|].
  destruct (IntercalarListas (Some 1%nat) (Some 0%nat) (Some 1%nat) two_lists)
    as [res1 h1| |] eqn:Hrun1; [|vm_compute in Hrun1; discriminate Hrun1..].
  destruct (ConcatenarListas (Some 1%nat) (Some 0%nat) (Some 1%nat) two_lists)
    as [res2 h2| |] eqn:Hrun2; [|vm_compute in Hrun2; discriminate Hrun2..].
  exists res1, h1, res2, h2.
  destruct (receiver_untouched (Some 1%nat) (Some 0%nat) (Some 1%nat) two_lists)
    as (_ & _ & Hint & Hcon).
  split; [reflexivity|]. split; [exact (Hint 1%nat res1 h1 eq_refl Hr Hrun1)|].
  split; [reflexivity|]. exact (Hcon 1%nat res2 h2 eq_refl Hne Hrun2).
Defined.

(** ** Further properties: length, search, insertion at either end *)

Section SizeAndSearch.
Context {T : Type} `{GoEq T}.
Implicit Types (h : heap T) (cs : list (loc * T)) (L : LinkedList).

Lemma Size_loop_chain h cs : forall p fuel position,
  chain (nodes h) p cs -> (length cs <= fuel)%nat ->
  0 <= position -> position + Z.of_nat (length cs) < 2 ^ 63 ->
  Size_loop fuel p position h = Ok (position + Z.of_nat (length cs)) h.
Proof.
  induction cs as [|c cs IH]; intros p fuel position Hc Hf H0 Hmax.
  - unfold chain in Hc. simpl in Hc. subst p. cbn [length].
    rewrite Z.add_0_r. destruct fuel; reflexivity.
  - destruct Hc as (-> & nx & Hn & Hc). destruct fuel as [|fuel]; [simpl in Hf; lia|].
    cbn [length] in Hf, Hmax |- *. simpl Size_loop. step. cbn [next].
    rewrite wrap_small by lia. rewrite (IH nx fuel) by (auto; lia). f_equal. lia.
Qed.

(** [Size] walks the chain: on a list whose chain holds [n] elements it
    returns [n], whatever the cached [size] field says, and leaves the
    store as it is. *)
Theorem Size_spec h l L cs :
  lists h !! l = Some L -> chain (nodes h) (head L) cs ->
  Z.of_nat (length cs) < 2 ^ 63 ->
  Size (Some l) h = Ok (Z.of_nat (length cs)) h.
Proof.
  intros Hl Hc Hmax. unfold Size. step. destruct cs as [|c cs'].
  - unfold chain in Hc. simpl in Hc. rewrite Hc. reflexivity.
  - pose proof Hc as (Hh & _). rewrite Hh in Hc |- *. unfold heap_size at 1.
    unfold bind at 1. pose proof (chain_length _ _ _ Hc) as Hlen.
    rewrite (Size_loop_chain h (c :: cs')) by (auto; lia). reflexivity.
Qed.

Lemma first_index_absent (v : T) vs :
  Forall (fun x => go_eqb x v = false) vs -> first_index v vs = None.
Proof.
  induction vs as [|x vs IH]; intros Hv; [reflexivity|]. cbn [first_index].
  apply Forall_cons in Hv as (Hne & Hv).
  rewrite Hne. rewrite (IH Hv). reflexivity.
Qed.

(** [Search] on any list whose element count is in the range of an [int]:
    when no element is [==] to the value (so for any value, on an empty
    list) it gives [-1]; otherwise it gives the zero-based position of the
    first element that is [==] to the value; the store is left as it is. *)
Theorem Search_spec h l L cs :
  lists h !! l = Some L -> chain (nodes h) (head L) cs ->
  Z.of_nat (length cs) < 2 ^ 63 ->
  (forall v, Forall (fun x => go_eqb x v = false) cs.*2 ->
     (Search (Some l) v h) = Ok (-1) h) /\
  (forall i x v, cs.*2 !! i = Some x -> go_eqb x v = true ->
     (forall j y, (j < i)%nat -> cs.*2 !! j = Some y -> go_eqb y v = false) ->
     (Search (Some l) v h) = Ok (Z.of_nat i) h).
Proof.
  intros Hl Hc Hmax. split.
  - intros v Hv. rewrite (Search_chain h l L cs v Hl Hc Hmax).
    rewrite (first_index_absent v _ Hv). reflexivity.
  - intros i x v Hi Hx Hj. rewrite (Search_chain h l L cs v Hl Hc Hmax).
    rewrite (first_index_lookup v _ i x Hi Hx Hj). reflexivity.
Qed.
End SizeAndSearch.

Section EndInsertion.
Context {T : Type} `{GoEq T}.
Implicit Types (h : heap T) (cs : list (loc * T)) (L : LinkedList).

(** The store after [Prepend l v]. *)
Lemma Prepend_run h l L v :
  lists h !! l = Some L ->
  Prepend (Some l) v h
  = Ok tt (Heap (nodes h ++ [Node v (head L)])
             (<[l := Header (Some (length (nodes h)))
                       (match head L with
                        | None => Some (length (nodes h))
                        | Some _ => tail L
                        end)
                       (wrap (size L + 1))]> (lists h))).
Proof.
  intros Hl. pose proof (lookup_lt_Some _ _ _ Hl) as Hlt. unfold Prepend.
  unfold newNode, alloc_node, get_head, set_head, set_tail, set_next, incr_size,
    get_size, set_size, load_list, store_list, load_node, store_node, bind, ret.
  simpl. rewrite Hl. simpl. destruct (head L) as [a|] eqn:Hh.
  - simpl. rewrite lookup_app_r by lia. rewrite Nat.sub_diag. simpl. rewrite Hl. simpl.
    repeat (rewrite list_lookup_insert_eq by (rewrite ?length_insert; lia); simpl).
    rewrite !list_insert_insert_eq. rewrite insert_app_r_alt by lia.
    rewrite Nat.sub_diag. reflexivity.
  - simpl. rewrite Hl. simpl.
    repeat (rewrite list_lookup_insert_eq by (rewrite ?length_insert; lia); simpl).
    rewrite !list_insert_insert_eq. reflexivity.
Qed.

Lemma chain_grow (ns extra : list (node T)) p cs :
  chain ns p cs -> chain (ns ++ extra) p cs.
Proof.
  intros Hc. eapply lseg_frame; [|exact Hc]. intros a Ha.
  apply lookup_app_l. eapply lseg_bound; eauto.
Qed.

(** [Prepend] on any list, whatever its [tail]: the call returns, the new
    node is a fresh cell in front of the old chain, [size] goes up by one,
    [tail] is set to the new node if the list had no nodes and is left alone
    otherwise, and no cell that was in the store is changed.  A list whose
    [tail] was its last node still has that property. *)
Theorem Prepend_spec h l L cs v :
  lists h !! l = Some L -> chain (nodes h) (head L) cs ->
  exists h' L',
    Prepend (Some l) v h = Ok tt h' /\ lists h' !! l = Some L' /\
    chain (nodes h') (head L') ((length (nodes h), v) :: cs) /\
    size L' = wrap (size L + 1) /\
    (cs = [] -> tail L' = Some (length (nodes h))) /\
    (cs <> [] -> tail L' = tail L) /\
    (forall a, (a < length (nodes h))%nat -> nodes h' !! a = nodes h !! a) /\
    (forall l', l' <> l -> lists h' !! l' = lists h !! l') /\
    (list_rep h L cs -> list_rep h' L' ((length (nodes h), v) :: cs)).
Proof.
  intros Hl Hc. pose proof (lookup_lt_Some _ _ _ Hl) as Hlt.
  eexists. eexists. split; [apply Prepend_run; exact Hl|]. simpl.
  split; [apply list_lookup_insert_eq; exact Hlt|]. simpl.
  assert (Hnew : chain (nodes h ++ [Node v (head L)]) (Some (length (nodes h)))
                   ((length (nodes h), v) :: cs)).
  { split; [reflexivity|]. exists (head L). split.
    - simpl. rewrite lookup_app_r by lia. rewrite Nat.sub_diag. reflexivity.
    - apply chain_grow. exact Hc. }
  split; [exact Hnew|]. split; [reflexivity|]. split; [|split; [|split; [|split]]].
  - intros ->. unfold chain in Hc. simpl in Hc. rewrite Hc. reflexivity.
  - intros Hne. destruct cs as [|c cs']; [congruence|]. destruct Hc as (-> & _).
    reflexivity.
  - intros a Ha. apply lookup_app_l. exact Ha.
  - intros l' Hl'. apply list_lookup_insert_ne. congruence.
  - intros (_ & Ht). split; [exact Hnew|]. intros _. simpl.
    destruct cs as [|c cs'].
    + unfold chain in Hc. simpl in Hc. rewrite Hc. reflexivity.
    + destruct Hc as (-> & _). rewrite (Ht ltac:(discriminate)). reflexivity.
Qed.

(** [Append] on a list whose [tail] is its last node: the call returns, the
    new node is a fresh cell after the last one, [tail] is that new node,
    [size] goes up by one, and no other list header is touched. *)
Theorem Append_spec h l L cs v :
  lists h !! l = Some L -> list_rep h L cs ->
  exists h' L',
    Append (Some l) v h = Ok tt h' /\ lists h' !! l = Some L' /\
    list_rep h' L' (cs ++ [(length (nodes h), v)]) /\
    tail L' = Some (length (nodes h)) /\
    size L' = wrap (size L + 1) /\
    (forall l', l' <> l -> lists h' !! l' = lists h !! l').
Proof.
  intros Hl Hrep. pose proof (lookup_lt_Some _ _ _ Hl) as Hlt.
  destruct (Append_result_lookup h l L cs v Hl) as (L' & Hl').
  pose proof (Append_result_rep h l L cs v L' Hl Hrep Hl') as Hrep'.
  exists (Append_result h l L cs v), L'.
  split; [apply Append_run; assumption|]. split; [exact Hl'|]. split; [exact Hrep'|].
  unfold Append_result in Hl' |- *. simpl in Hl' |- *.
  rewrite list_lookup_insert_eq in Hl' by exact Hlt. injection Hl' as <-.
  split; [reflexivity|]. split; [reflexivity|].
  intros l' Hne. apply list_lookup_insert_ne. congruence.
Qed.
End EndInsertion.

(** ** Further properties: removal *)

Section RemovalMore.
Context {T : Type} `{GoEq T}.
Implicit Types (h : heap T) (cs : list (loc * T)) (L : LinkedList).

(** Where the first [==] match sits: behind cells that do not match. *)
Lemma remove_first_split (v : T) cs :
  Exists (fun x => go_eqb x v = true) cs.*2 ->
  exists pre c post,
    cs = pre ++ c :: post /\
    Forall (fun x => go_eqb x v = false) pre.*2 /\
    go_eqb c.2 v = true /\
    remove_first v cs = pre ++ post.
Proof.
  induction cs as [|c cs IH]; intros Hv; [inversion Hv|].
  cbn [remove_first]. destruct (go_eqb c.2 v) eqn:Heq.
  - exists [], c, cs. split; [reflexivity|]. split; [constructor|]. auto.
  - rewrite fmap_cons in Hv. apply Exists_cons in Hv as [Hv|Hv]; [congruence|].
    destruct (IH Hv) as (pre & c' & post & -> & Hpre & Hc' & Hrem).
    exists (c :: pre), c', post. split; [reflexivity|].
    split; [rewrite fmap_cons; constructor; assumption|].
    split; [exact Hc'|]. rewrite Hrem. reflexivity.
Qed.

Lemma Remove_loop_absent (l : ptr) (v : T) cs : forall a x fuel h,
  chain (nodes h) (Some a) ((a, x) :: cs) -> (length cs <= fuel)%nat ->
  Forall (fun y => go_eqb y v = false) cs.*2 ->
  Remove_loop fuel l v (Some a) h = Ok tt h.
Proof.
  induction cs as [|[b y] cs IH]; intros a x fuel h Hc Hf Hv.
  - destruct Hc as (_ & nx & Hn & Hnil). simpl in Hn, Hnil. subst nx.
    destruct fuel; simpl Remove_loop;
      rewrite (bind_ok _ _ _ _ _ (get_next_ok _ _ _ Hn)); reflexivity.
  - destruct Hc as (_ & nx & Hn & Hc1). simpl in Hn.
    pose proof Hc1 as (Hnx & nn & Hb & _). simpl in Hnx, Hb. subst nx.
    destruct fuel as [|fuel]; [simpl in Hf; lia|]. simpl in Hf.
    rewrite fmap_cons in Hv. apply Forall_cons in Hv as (Hne & Hv). simpl in Hne.
    simpl Remove_loop. step. cbn [next]. step. cbn [value].
    rewrite Hne. apply (IH b y); auto. lia.
Qed.

(** [Remove] of a value that no element of the list is [==] to (so of any
    value, on an empty list) returns and leaves the whole store exactly as
    it was. *)
Theorem Remove_absent h l L cs (v : T) :
  lists h !! l = Some L -> chain (nodes h) (head L) cs ->
  Forall (fun x => go_eqb x v = false) cs.*2 ->
  (Remove (Some l) v h) = Ok tt h.
Proof.
  intros Hl Hc Hv. unfold Remove. step. destruct cs as [|[a x] cs'].
  - unfold chain in Hc. simpl in Hc. rewrite Hc. reflexivity.
  - pose proof Hc as (Hh & nx & Hn & _). simpl in Hh, Hn. rewrite Hh in Hc |- *.
    rewrite fmap_cons in Hv. apply Forall_cons in Hv as (Hne & Hv). simpl in Hne.
    step. cbn [value]. rewrite Hne.
    unfold heap_size at 1. unfold bind at 1.
    pose proof (chain_length _ _ _ Hc) as Hlen. simpl in Hlen.
    apply (Remove_loop_absent _ v cs' a x); auto. lia.
Qed.

Lemma Remove_loop_found l L (v : T) cs : forall a x fuel h,
  lists h !! l = Some L ->
  chain (nodes h) (Some a) ((a, x) :: cs) -> (length cs <= fuel)%nat ->
  Exists (fun y => go_eqb y v = true) cs.*2 ->
  exists ns',
    Remove_loop fuel (Some l) v (Some a) h
    = Ok tt (Heap ns' (<[l := Header (head L) (tail L) (wrap (size L - 1))]> (lists h))) /\
    chain ns' (Some a) ((a, x) :: remove_first v cs) /\
    length ns' = length (nodes h) /\
    (forall b, b ∉ ((a, x) :: cs).*1 -> ns' !! b = nodes h !! b).
Proof.
  induction cs as [|[b y] cs IH]; intros a x fuel h Hl Hc Hf Hv; [inversion Hv|].
  pose proof (chain_NoDup _ _ _ Hc) as Hnd.
  pose proof Hc as (_ & nx & Hn & Hc1). simpl in Hn.
  pose proof Hc1 as (Hnx & nn & Hb & Hc2). simpl in Hnx, Hb, Hc2. subst nx.
  destruct fuel as [|fuel]; [simpl in Hf; lia|]. simpl in Hf.
  cbn [remove_first snd]. apply NoDup_cons in Hnd as (Ha & Hnd). simpl in Ha.
  destruct (go_eqb y v) eqn:Heq.
  - eexists. split.
    { simpl Remove_loop. step. cbn [next]. step. cbn [value].
      rewrite Heq. step. cbn [next].
      erewrite bind_ok by (eapply set_next_ok; eauto).
      erewrite decr_size_ok by (simpl; exact Hl). simpl. reflexivity. }
    split; [|split; [apply length_insert|]].
    + split; [reflexivity|]. exists nn. split.
      { apply list_lookup_insert_eq. eapply lookup_lt_Some; eauto. }
      eapply lseg_frame; [|exact Hc2]. intros c Hin.
      apply list_lookup_insert_ne. intros ->. apply Ha. simpl. right. exact Hin.
    + intros c Hin. apply list_lookup_insert_ne. intros ->. apply Hin. simpl. left.
  - rewrite fmap_cons in Hv. apply Exists_cons in Hv as [Hv|Hv]; [simpl in Hv; congruence|].
    destruct (IH b y fuel h Hl Hc1 ltac:(lia) Hv) as (ns' & Hrun & Hc' & Hlen & Hframe).
    exists ns'. split.
    { simpl Remove_loop. step. cbn [next]. step. cbn [value].
      rewrite Heq. exact Hrun. }
    split; [|split; [exact Hlen|]].
    + split; [reflexivity|]. exists (Some b). split; [|exact Hc'].
      simpl. rewrite Hframe; [exact Hn | exact Ha].
    + intros c Hin. apply Hframe. intros Hin'. apply Hin. simpl. right. exact Hin'.
Qed.

(** The store after [Remove] of a value the list holds. *)
Lemma Remove_found_run h l L cs (v : T) :
  lists h !! l = Some L -> chain (nodes h) (head L) cs ->
  Exists (fun x => go_eqb x v = true) cs.*2 ->
  exists ns' hd',
    (Remove (Some l) v h)
    = Ok tt (Heap ns' (<[l := Header hd' (tail L) (wrap (size L - 1))]> (lists h))) /\
    chain ns' hd' (remove_first v cs) /\
    length ns' = length (nodes h).
Proof.
  intros Hl Hc Hv. pose proof (lookup_lt_Some _ _ _ Hl) as Hlt.
  destruct cs as [|[a x] cs']; [inversion Hv|].
  pose proof Hc as (Hh & nx & Hn & Hc1). simpl in Hh, Hn. rewrite Hh in Hc.
  cbn [remove_first snd]. destruct (go_eqb x v) eqn:Heq.
  - exists (nodes h), nx. split; [|split; [exact Hc1 | reflexivity]].
    unfold Remove. step. rewrite Hh. step. cbn [value].
    rewrite Heq. step. cbn [next].
    erewrite bind_ok by (eapply set_head_ok; eauto).
    erewrite decr_size_ok by (simpl; apply list_lookup_insert_eq; exact Hlt).
    simpl. rewrite list_insert_insert_eq. reflexivity.
  - rewrite fmap_cons in Hv. apply Exists_cons in Hv as [Hv|Hv]; [simpl in Hv; congruence|].
    pose proof (chain_length _ _ _ Hc) as Hlen. simpl in Hlen.
    destruct (Remove_loop_found l L v cs' a x (length (nodes h)) h Hl Hc ltac:(lia) Hv)
      as (ns' & Hrun & Hc' & Hlen' & _).
    exists ns', (Some a). split; [|split; [exact Hc' | exact Hlen']].
    unfold Remove. step. rewrite Hh. step. cbn [value].
    rewrite Heq. unfold heap_size at 1. unfold bind at 1.
    rewrite Hrun, Hh. reflexivity.
Qed.

(** [Remove] of a value that some element of the list is [==] to returns
    and unlinks the first node whose value is [==] to it, and no other: the
    chain is the nodes before that one, none of them a match, followed by
    the nodes after it.  It lowers [size] by one, keeps the number of
    cells, leaves the [tail] field as it was and touches no other list
    header. *)
Theorem Remove_found h l L cs (v : T) :
  lists h !! l = Some L -> chain (nodes h) (head L) cs ->
  Exists (fun x => go_eqb x v = true) cs.*2 ->
  exists h' L' pre c post,
    (Remove (Some l) v h) = Ok tt h' /\ lists h' !! l = Some L' /\
    cs = pre ++ c :: post /\
    Forall (fun x => go_eqb x v = false) pre.*2 /\ go_eqb c.2 v = true /\
    chain (nodes h') (head L') (pre ++ post) /\
    size L' = wrap (size L - 1) /\
    tail L' = tail L /\
    length (nodes h') = length (nodes h) /\
    (forall l', l' <> l -> lists h' !! l' = lists h !! l').
Proof.
  intros Hl Hc Hv. pose proof (lookup_lt_Some _ _ _ Hl) as Hlt.
  destruct (Remove_found_run h l L cs v Hl Hc Hv) as (ns' & hd' & Hrun & Hc' & Hlen).
  destruct (remove_first_split v cs Hv) as (pre & c & post & Hcs & Hpre & Hm & Hrem).
  rewrite Hrem in Hc'.
  eexists. eexists. exists pre, c, post. split; [exact Hrun|]. simpl.
  split; [apply list_lookup_insert_eq; exact Hlt|]. simpl.
  split; [exact Hcs|]. split; [exact Hpre|]. split; [exact Hm|]. split; [exact Hc'|].
  split; [reflexivity|]. split; [reflexivity|]. split; [exact Hlen|].
  intros l' Hne. apply list_lookup_insert_ne. congruence.
Qed.
End RemovalMore.

(** ** Further properties: what a call leaves alone *)

Section Keeping.
Context {T : Type} `{GoEq T}.
Variable R : heap T -> heap T -> Prop.
Hypothesis R_refl : forall h, R h h.
Hypothesis R_trans : forall h1 h2 h3, R h1 h2 -> R h2 h3 -> R h1 h3.

Lemma keeps_ret {A} (x : A) : keeps R (ret x).
Proof. intros h y h' [= _ <-]. apply R_refl. Qed.

Lemma keeps_diverge {A} : keeps R (@diverge T A).
Proof. intros h y h' Hd. discriminate Hd. Qed.

Lemma keeps_bind {A B} (c : M T A) (k : A -> M T B) :
  keeps R c -> (forall a, keeps R (k a)) -> keeps R (bind c k).
Proof.
  intros Hc Hk h y h'' Hrun. unfold bind in Hrun.
  destruct (c h) as [a h'| |] eqn:Hch; try discriminate Hrun.
  eapply R_trans; [eapply Hc; exact Hch | eapply Hk; exact Hrun].
Qed.

Lemma keeps_load_node p : keeps R (load_node (T := T) p).
Proof.
  intros h y h' Hrun. unfold load_node in Hrun. destruct p as [a|]; [|discriminate].
  destruct (nodes h !! a); [|discriminate]. injection Hrun as _ <-. apply R_refl.
Qed.

Lemma keeps_load_list l : keeps R (load_list (T := T) l).
Proof.
  intros h y h' Hrun. unfold load_list in Hrun. destruct l as [a|]; [|discriminate].
  destruct (lists h !! a); [|discriminate]. injection Hrun as _ <-. apply R_refl.
Qed.

Lemma keeps_heap_size : keeps R (heap_size (T := T)).
Proof. intros h y h' [= _ <-]. apply R_refl. Qed.

Hint Resolve keeps_ret keeps_diverge keeps_load_node keeps_load_list keeps_heap_size
  : go.

Ltac keeps_tac :=
  unfold incr_size, decr_size;
  unfold get_value, get_next, get_head, get_tail, get_size;
  repeat first
    [ progress intros
    | solve [auto with go]
    | apply keeps_bind
    | match goal with |- keeps _ (match ?x with _ => _ end) => destruct x end
    | match goal with |- keeps _ (if ?x then _ else _) => destruct x end ].

Lemma keeps_Get_loop fuel : forall p position,
  keeps R (Get_loop (T := T) fuel p position).
Proof.
  induction fuel as [|fuel IH]; intros [a|] position; cbn [Get_loop]; keeps_tac.
Qed.

Lemma keeps_Search_loop fuel (v : T) : forall p position,
  keeps R (Search_loop fuel v p position).
Proof.
  induction fuel as [|fuel IH]; intros [a|] position; cbn [Search_loop]; keeps_tac.
Qed.

Lemma keeps_String_loop (show : T -> string) fuel : forall p acc,
  keeps R (String_loop show fuel p acc).
Proof.
  induction fuel as [|fuel IH]; intros [a|] acc; cbn [String_loop]; keeps_tac.
Qed.

Lemma keeps_Size_loop fuel : forall p position,
  keeps R (Size_loop (T := T) fuel p position).
Proof.
  induction fuel as [|fuel IH]; intros [a|] position; cbn [Size_loop]; keeps_tac.
Qed.

Lemma keeps_Get (zero : T) l position : keeps R (Get zero l position).
Proof. pose proof keeps_Get_loop. unfold Get. keeps_tac. Qed.

Lemma keeps_Search l (v : T) : keeps R (Search l v).
Proof. pose proof keeps_Search_loop. unfold Search. keeps_tac. Qed.

Lemma keeps_String (show : T -> string) l : keeps R (String show l).
Proof. pose proof keeps_String_loop. unfold String. keeps_tac. Qed.

Lemma keeps_Size l : keeps R (Size (T := T) l).
Proof. pose proof keeps_Size_loop. unfold Size. keeps_tac. Qed.

(** [Remove] writes only through [p.next = q], [l.head = q] and [l.size--]. *)
Hypothesis R_set_next : forall p q, keeps R (set_next (T := T) p q).
Hypothesis R_set_head : forall l q, keeps R (set_head (T := T) l q).
Hypothesis R_set_size : forall l z, keeps R (set_size (T := T) l z).

Lemma keeps_Remove_loop fuel l (v : T) : forall p, keeps R (Remove_loop fuel l v p).
Proof.
  induction fuel as [|fuel IH]; intros p; cbn [Remove_loop]; keeps_tac.
Qed.

Lemma keeps_Remove l (v : T) : keeps R (Remove l v).
Proof. pose proof keeps_Remove_loop. unfold Remove. keeps_tac. Qed.
End Keeping.

Section NeverChanged.
Context {T : Type} `{GoEq T}.
Implicit Types (h : heap T).

(** The four queries never write: on every store, well formed or not,
    whenever [Get], [Search], [String] or [Size] returns (a value or one of
    [Get]'s errors), the store is exactly the one it was called on. *)
Theorem queries_pure (zero : T) (show : T -> string) (l : ptr) h :
  (forall position r h', Get zero l position h = Ok r h' -> h' = h) /\
  (forall v r h', Search l v h = Ok r h' -> h' = h) /\
  (forall r h', String show l h = Ok r h' -> h' = h) /\
  (forall r h', Size l h = Ok r h' -> h' = h).
Proof.
  assert (Hrefl : forall h1 : heap T, h1 = h1) by reflexivity.
  assert (Htrans : forall h1 h2 h3 : heap T, h1 = h2 -> h2 = h3 -> h1 = h3)
    by (intros; congruence).
  split; [|split; [|split]].
  - intros position r h' Hrun. symmetry.
    exact (keeps_Get eq Hrefl Htrans zero l position h r h' Hrun).
  - intros v r h' Hrun. symmetry. exact (keeps_Search eq Hrefl Htrans l v h r h' Hrun).
  - intros r h' Hrun. symmetry. exact (keeps_String eq Hrefl Htrans show l h r h' Hrun).
  - intros r h' Hrun. symmetry. exact (keeps_Size eq Hrefl Htrans l h r h' Hrun).
Qed.

Lemma relinked_refl h : relinked h h.
Proof. unfold relinked. eauto 10. Qed.

Lemma relinked_trans h1 h2 h3 : relinked h1 h2 -> relinked h2 h3 -> relinked h1 h3.
Proof.
  intros (Hn1 & Hv1 & Hl1 & Ht1) (Hn2 & Hv2 & Hl2 & Ht2).
  split; [congruence|]. split; [|split; [congruence|]].
  - intros a n Ha. destruct (Hv1 a n Ha) as (n1 & Ha1 & Hval1).
    destruct (Hv2 a n1 Ha1) as (n2 & Ha2 & Hval2). exists n2. split; [exact Ha2|].
    congruence.
  - intros a L Ha. destruct (Ht1 a L Ha) as (L1 & Ha1 & Htl1).
    destruct (Ht2 a L1 Ha1) as (L2 & Ha2 & Htl2). exists L2. split; [exact Ha2|].
    congruence.
Qed.

Lemma relinked_store_node (p : ptr) (f : node T -> node T) :
  (forall n, value (f n) = value n) -> keeps relinked (store_node p f).
Proof.
  intros Hf h y h' Hrun. unfold store_node in Hrun. destruct p as [a|]; [|discriminate].
  destruct (nodes h !! a) as [n0|] eqn:Hn; [|discriminate]. injection Hrun as _ <-.
  split; [apply length_insert|]. split; [|split; [reflexivity | simpl; eauto]].
  intros b n Hb. simpl. destruct (decide (b = a)) as [->|Hne].
  - exists (f n0). rewrite list_lookup_insert_eq by (eapply lookup_lt_Some; eauto).
    split; [reflexivity|]. rewrite Hf. congruence.
  - exists n. rewrite list_lookup_insert_ne by congruence. auto.
Qed.

Lemma relinked_store_list (l : ptr) (f : LinkedList -> LinkedList) :
  (forall L, tail (f L) = tail L) -> keeps (T := T) relinked (store_list l f).
Proof.
  intros Hf h y h' Hrun. unfold store_list in Hrun. destruct l as [a|]; [|discriminate].
  destruct (lists h !! a) as [L0|] eqn:Hl; [|discriminate]. injection Hrun as _ <-.
  split; [reflexivity|]. split; [simpl; eauto|]. split; [apply length_insert|].
  intros b L Hb. simpl. destruct (decide (b = a)) as [->|Hne].
  - exists (f L0). rewrite list_lookup_insert_eq by (eapply lookup_lt_Some; eauto).
    split; [reflexivity|]. rewrite Hf. congruence.
  - exists L. rewrite list_lookup_insert_ne by congruence. auto.
Qed.

(** [Remove] only rewrites links: on every store, whenever it returns, the
    store has the same cells, every node holds the value it held, and every
    list header, the receiver's included, has the [tail] it had.  So a
    [Remove] that unlinks the last node leaves [tail] on the unlinked node. *)
Theorem Remove_relinked (l : ptr) (v : T) h h' :
  (Remove l v h) = Ok tt h' -> relinked h h'.
Proof.
  intros Hrun.
  refine (keeps_Remove relinked relinked_refl relinked_trans _ _ _ l v h tt h' Hrun).
  - intros p q. apply relinked_store_node. reflexivity.
  - intros l0 q. apply relinked_store_list. reflexivity.
  - intros l0 z. apply relinked_store_list. reflexivity.
Qed.
End NeverChanged.

(** ** Further properties: insertion at a position *)

Section PositionalInsertion.
Context {T : Type} `{GoEq T}.
Implicit Types (h : heap T) (cs : list (loc * T)) (L : LinkedList).

Lemma header_eta L : Header (head L) (tail L) (size L) = L.
Proof. destruct L; reflexivity. Qed.

Lemma heap_eta h : Heap (nodes h) (lists h) = h.
Proof. destruct h; reflexivity. Qed.

(** The walk of [InsertAt]: it stops on the node at index
    [min (length cs) (position - 1)] (on [nil] when that is the length) and
    has by then incremented [size] once per step, writing nothing else. *)
Lemma InsertAt_loop_run l cs : forall L p fuel position h,
  lists h !! l = Some L -> chain (nodes h) p cs ->
  (Z.to_nat (position - 1) <= fuel)%nat ->
  InsertAt_loop fuel (Some l) p position h
  = Ok (fst <$> cs !! (length cs `min` Z.to_nat (position - 1))%nat)
       (Heap (nodes h)
          (<[l := Header (head L) (tail L)
                    (incr_times (length cs `min` Z.to_nat (position - 1)) (size L))]>
             (lists h))).
Proof.
  induction cs as [|c cs IH]; intros L p fuel position h Hl Hc Hf.
  - unfold chain in Hc. simpl in Hc. subst p. cbn [length Nat.min incr_times Nat.iter].
    rewrite header_eta, list_insert_id by exact Hl. rewrite heap_eta.
    destruct fuel; reflexivity.
  - destruct Hc as (-> & nx & Hn & Hc). pose proof (lookup_lt_Some _ _ _ Hl) as Hlt.
    assert (Hun : forall f, InsertAt_loop f (Some l) (Some c.1) position h =
      if 1 <? position then
        match f with
        | O => Diverge
        | S f' =>
            bind (get_next (Some c.1))
              (fun nx => bind (incr_size (Some l))
                 (fun _ => InsertAt_loop f' (Some l) nx (position - 1))) h
        end
      else Ok (Some c.1) h)
      by (intros [|f]; simpl; destruct (1 <? position); reflexivity).
    rewrite Hun. destruct (Z.ltb_spec 1 position) as [Hp|Hp].
    + destruct fuel as [|fuel]; [lia|]. step. cbn [next].
      erewrite bind_ok by (eapply incr_size_ok; exact Hl).
      erewrite (IH (Header (head L) (tail L) (wrap (size L + 1))) nx fuel (position - 1));
        [|simpl; apply list_lookup_insert_eq; exact Hlt|exact Hc|lia].
      replace (Z.to_nat (position - 1)) with (S (Z.to_nat (position - 1 - 1))) by lia.
      cbn [length Nat.min lookup list_lookup head tail size nodes lists].
      rewrite list_insert_insert_eq. unfold incr_times. rewrite Nat.iter_succ_r.
      reflexivity.
    + replace (Z.to_nat (position - 1)) with O by lia.
      rewrite Nat.min_0_r. cbn [lookup list_lookup fmap option_fmap option_map fst
        incr_times Nat.iter].
      rewrite header_eta, list_insert_id by exact Hl. rewrite heap_eta. reflexivity.
Qed.

(** [InsertAt] at a position from 1 to the length of the list: the call
    returns and the new node, a fresh cell, is spliced in so that it sits at
    that zero-based position, all other elements keeping their order.  The
    header's [head] and [tail] are not written, also when the new node is
    the last one, and [size] is incremented once per step of the walk,
    [position - 1] times, not once for the insertion. *)
Theorem InsertAt_inside h l L cs (v : T) position :
  lists h !! l = Some L -> chain (nodes h) (head L) cs ->
  1 <= position <= Z.of_nat (length cs) ->
  exists h' L',
    InsertAt (Some l) v position h = Ok tt h' /\ lists h' !! l = Some L' /\
    chain (nodes h') (head L')
      (take (Z.to_nat position) cs ++ (length (nodes h), v) :: drop (Z.to_nat position) cs) /\
    head L' = head L /\ tail L' = tail L /\
    size L' = incr_times (Z.to_nat (position - 1)) (size L).
Proof.
  intros Hl Hc Hp. pose proof (lookup_lt_Some _ _ _ Hl) as Hlt.
  set (n := length (nodes h)). set (k := Z.to_nat (position - 1)).
  assert (Hk : (k < length cs)%nat) by lia.
  destruct (lookup_lt_is_Some_2 cs k Hk) as ([a x] & Hck).
  set (h1 := Heap (nodes h ++ [Node v None]) (lists h)).
  assert (Hc1 : chain (nodes h1) (head L) cs) by (apply chain_grow; exact Hc).
  pose proof (InsertAt_loop_run l cs L (head L) (Z.to_nat position) position h1 Hl Hc1
                ltac:(lia)) as Hloop.
  fold k in Hloop. rewrite Nat.min_r in Hloop by lia. rewrite Hck in Hloop.
  cbn [fmap option_fmap option_map fst] in Hloop.
  pose proof (take_drop_middle cs k (a, x) Hck) as Hsplit.
  pose proof (chain_NoDup _ _ _ Hc) as Hnd.
  pose proof Hc as Hc0. rewrite <- Hsplit in Hc, Hnd.
  apply lseg_app in Hc as (m & Hpre & Hm & nx & Hn & Hpost). simpl in Hm, Hn, Hpost.
  subst m. pose proof (lookup_lt_Some _ _ _ Hn) as Hlta. fold n in Hlta.
  rewrite fmap_app, fmap_cons in Hnd. apply NoDup_app in Hnd as (_ & Hdis & Hnd2).
  apply NoDup_cons in Hnd2 as (Hapost & _). simpl in Hdis, Hapost.
  eexists. eexists. split.
  { unfold InsertAt. destruct (Z.ltb_spec position 0) as [Hneg|_]; [lia|].
    unfold newNode, alloc_node. unfold bind at 1. fold h1. fold n.
    destruct (Z.eqb_spec position 0) as [H0|_]; [lia|].
    erewrite bind_ok by (eapply get_head_ok; exact Hl).
    erewrite bind_ok by exact Hloop. cbv beta iota. unfold h1. cbn [nodes lists].
    erewrite bind_ok
      by (eapply get_next_ok; simpl; rewrite lookup_app_l by exact Hlta; exact Hn).
    cbn [next].
    erewrite bind_ok
      by (eapply set_next_ok; simpl; rewrite lookup_app_r by (unfold n; lia);
          rewrite Nat.sub_diag; reflexivity).
    erewrite set_next_ok
      by (simpl; rewrite list_lookup_insert_ne by lia;
          rewrite lookup_app_l by exact Hlta; exact Hn).
    reflexivity. }
  simpl. split; [apply list_lookup_insert_eq; exact Hlt|]. simpl.
  split; [|repeat split].
  replace (Z.to_nat position) with (S k) by lia.
  rewrite (take_S_r cs k (a, x) Hck), <- app_assoc. cbn [app].
  assert (Hbound : forall b, b ∈ cs.*1 -> (b < n)%nat)
    by (intros b Hb; eapply lseg_bound; eauto).
  assert (Hin : forall b, b ∈ (take k cs).*1 \/ b ∈ (drop (S k) cs).*1 -> b ∈ cs.*1).
  { intros b Hb. rewrite <- Hsplit, fmap_app, fmap_cons. apply elem_of_app.
    destruct Hb; [left | right; right]; assumption. }
  assert (Hsame : forall b, b <> a -> (b < n)%nat ->
    <[a := Node x (Some n)]> (<[n := Node v nx]> (nodes h ++ [Node v None])) !! b
    = nodes h !! b).
  { intros b Hba Hbn. rewrite !list_lookup_insert_ne by lia.
    apply lookup_app_l. exact Hbn. }
  unfold chain. apply lseg_app. exists (Some a). split.
  - eapply lseg_frame; [|exact Hpre]. intros b Hb. apply Hsame.
    + intros ->. apply (Hdis _ Hb). left.
    + apply Hbound. apply Hin. left. exact Hb.
  - simpl. split; [reflexivity|]. exists (Some n). split.
    { apply list_lookup_insert_eq. rewrite length_insert, length_app. fold n. lia. }
    split; [reflexivity|]. exists nx. split.
    { rewrite list_lookup_insert_ne by lia. rewrite list_lookup_insert_eq.
      - reflexivity.
      - rewrite length_app. simpl. fold n. lia. }
    eapply lseg_frame; [|exact Hpost]. intros b Hb. apply Hsame.
    + intros ->. apply Hapost. exact Hb.
    + apply Hbound. apply Hin. right. exact Hb.
Qed.

(** [InsertAt] at a position beyond the length of the list: the call
    returns, no error is raised, and no cell that was in the store is
    changed, so the chain is the same and [head] and [tail] are as they
    were; but [size] is incremented once per node of the list.  Only on a
    list with no nodes is the header left entirely alone. *)
Theorem InsertAt_beyond h l L cs (v : T) position :
  lists h !! l = Some L -> chain (nodes h) (head L) cs ->
  Z.of_nat (length cs) < position ->
  exists h' L',
    InsertAt (Some l) v position h = Ok tt h' /\ lists h' !! l = Some L' /\
    chain (nodes h') (head L') cs /\
    head L' = head L /\ tail L' = tail L /\
    size L' = incr_times (length cs) (size L) /\
    (forall a, (a < length (nodes h))%nat -> nodes h' !! a = nodes h !! a) /\
    (forall l', l' <> l -> lists h' !! l' = lists h !! l').
Proof.
  intros Hl Hc Hp. pose proof (lookup_lt_Some _ _ _ Hl) as Hlt.
  set (h1 := Heap (nodes h ++ [Node v None]) (lists h)).
  assert (Hc1 : chain (nodes h1) (head L) cs) by (apply chain_grow; exact Hc).
  pose proof (InsertAt_loop_run l cs L (head L) (Z.to_nat position) position h1 Hl Hc1
                ltac:(lia)) as Hloop.
  rewrite Nat.min_l in Hloop by lia. rewrite lookup_ge_None_2 in Hloop by lia.
  cbn [fmap option_fmap option_map] in Hloop.
  eexists. eexists. split.
  { unfold InsertAt. destruct (Z.ltb_spec position 0) as [Hneg|_]; [lia|].
    unfold newNode, alloc_node. unfold bind at 1. fold h1.
    destruct (Z.eqb_spec position 0) as [H0|_]; [lia|].
    erewrite bind_ok by (eapply get_head_ok; exact Hl).
    erewrite bind_ok by exact Hloop. reflexivity. }
  simpl. split; [apply list_lookup_insert_eq; exact Hlt|]. simpl.
  split; [exact Hc1|]. repeat (split; [reflexivity|]). split.
  - intros a Ha. apply lookup_app_l. exact Ha.
  - intros l' Hne. apply list_lookup_insert_ne. congruence.
Qed.

(** [InsertAt] at position 0 returns and puts the value in front of the
    chain, as [Prepend] does, with [size] incremented twice: once by
    [Prepend] and once more by [InsertAt] itself. *)
Theorem InsertAt_zero h l L cs (v : T) :
  lists h !! l = Some L -> chain (nodes h) (head L) cs ->
  exists h' L',
    InsertAt (Some l) v 0 h = Ok tt h' /\ lists h' !! l = Some L' /\
    chain (nodes h') (head L') ((S (length (nodes h)), v) :: cs) /\
    size L' = wrap (wrap (size L + 1) + 1) /\
    (cs <> [] -> tail L' = tail L) /\
    (forall a, (a < length (nodes h))%nat -> nodes h' !! a = nodes h !! a).
Proof.
  intros Hl Hc. pose proof (lookup_lt_Some _ _ _ Hl) as Hlt.
  set (h1 := Heap (nodes h ++ [Node v None]) (lists h)).
  assert (Hl1 : lists h1 !! l = Some L) by exact Hl.
  assert (Hlen : length (nodes h1) = S (length (nodes h)))
    by (simpl; rewrite length_app; simpl; lia).
  eexists. eexists. split.
  { unfold InsertAt. cbn [Z.ltb Z.compare Z.eqb]. unfold newNode at 1, alloc_node.
    unfold bind at 1. fold h1.
    erewrite bind_ok by (apply Prepend_run; exact Hl1).
    erewrite incr_size_ok by (simpl; apply list_lookup_insert_eq; exact Hlt).
    simpl. rewrite list_insert_insert_eq. reflexivity. }
  simpl. split; [apply list_lookup_insert_eq; exact Hlt|]. simpl.
  rewrite length_app. simpl. rewrite Nat.add_1_r.
  split; [|split; [reflexivity|split]].
  - split; [reflexivity|]. exists (head L). split.
    + simpl. rewrite lookup_app_r by (rewrite length_app; simpl; lia).
      rewrite length_app. simpl. rewrite Nat.add_1_r, Nat.sub_diag. reflexivity.
    + apply chain_grow. apply chain_grow. exact Hc.
  - intros Hne. destruct cs as [|c cs']; [congruence|]. destruct Hc as (-> & _).
    reflexivity.
  - intros a Ha. rewrite lookup_app_l by (rewrite length_app; lia).
    apply lookup_app_l. exact Ha.
Qed.
End PositionalInsertion.

(** ** Further properties: insert, then look up or remove *)

Section RoundTrips.
Context {T : Type} `{GoEq T}.
Variable zero : T.
Variable show : T -> string.
Implicit Types (h : heap T) (cs : list (loc * T)) (L : LinkedList).

Lemma Get_chain_at h l L cs k a x :
  lists h !! l = Some L -> chain (nodes h) (head L) cs -> cs !! k = Some (a, x) ->
  Get zero (Some l) (Z.of_nat k) h = Ok (x, None) h.
Proof.
  intros Hl Hc Hk. unfold Get. step.
  destruct cs as [|c cs']; [inversion Hk|]. pose proof Hc as (Hh & _).
  rewrite Hh in Hc |- *. erewrite bind_ok by (eapply Get_loop_chain; eauto).
  rewrite Nat2Z.id, Hk. simpl.
  destruct (lseg_lookup _ _ _ _ _ _ _ Hc Hk) as (nx & Hn). step. reflexivity.
Qed.

(** For a value with [v == v] (every value but a floating-point NaN),
    [Prepend(v)] followed by [Remove(v)] undoes itself on every list, with
    or without earlier copies of [v] and whatever its [tail]: both calls
    return, the chain is the one before the pair, and so is the rendering. *)
Theorem Prepend_Remove_String h l L cs (v : T) :
  lists h !! l = Some L -> chain (nodes h) (head L) cs ->
  go_eqb v v = true ->
  exists s h1 h2 L2,
    String show (Some l) h = Ok s h /\
    Prepend (Some l) v h = Ok tt h1 /\
    (Remove (Some l) v h1) = Ok tt h2 /\
    lists h2 !! l = Some L2 /\ chain (nodes h2) (head L2) cs /\
    String show (Some l) h2 = Ok s h2.
Proof.
  intros Hl Hc Hv. pose proof (lookup_lt_Some _ _ _ Hl) as Hlt.
  pose proof (Prepend_run h l L v Hl) as Hrun1.
  match type of Hrun1 with _ = Ok tt ?x => set (h1 := x) in * end.
  assert (Hl1 : lists h1 !! l = Some (Header (Some (length (nodes h)))
            (match head L with
             | None => Some (length (nodes h))
             | Some _ => tail L
             end) (wrap (size L + 1))))
    by (apply list_lookup_insert_eq; exact Hlt).
  assert (Hc1 : chain (nodes h1) (Some (length (nodes h))) ((length (nodes h), v) :: cs)).
  { split; [reflexivity|]. exists (head L). split.
    - simpl. rewrite lookup_app_r by lia. rewrite Nat.sub_diag. reflexivity.
    - apply chain_grow. exact Hc. }
  destruct (Remove_chain h1 l _ _ v Hl1 Hc1) as (h2 & L2 & Hrun2 & Hl2 & Hc2).
  cbn [remove_first snd] in Hc2. rewrite Hv in Hc2.
  exists (render show cs.*2), h1, h2, L2.
  split; [eapply String_chain; eauto|]. split; [exact Hrun1|]. split; [exact Hrun2|].
  split; [exact Hl2|]. split; [exact Hc2|]. eapply String_chain; eauto.
Qed.

(** After [Append(v)] on a list whose [tail] is its last node and whose
    element count stays in the range of an [int], [Get] at the old length
    returns [v], every older element is still found by [Get] at its
    position, and [Search(v)] returns the old length when [v == v] and no
    element of the list before was [==] to [v]. *)
Theorem Append_then_lookup h l L cs (v : T) :
  lists h !! l = Some L -> list_rep h L cs ->
  Z.of_nat (S (length cs)) < 2 ^ 63 ->
  exists h',
    Append (Some l) v h = Ok tt h' /\
    Get zero (Some l) (Z.of_nat (length cs)) h' = Ok (v, None) h' /\
    (forall i x, cs.*2 !! i = Some x ->
       Get zero (Some l) (Z.of_nat i) h' = Ok (x, None) h') /\
    (go_eqb v v = true -> Forall (fun x => go_eqb x v = false) cs.*2 ->
     (Search (Some l) v h') = Ok (Z.of_nat (length cs)) h').
Proof.
  intros Hl Hrep Hmax.
  destruct (Append_result_lookup h l L cs v Hl) as (L' & Hl').
  pose proof (Append_result_rep h l L cs v L' Hl Hrep Hl') as (Hc' & _).
  exists (Append_result h l L cs v). split; [apply Append_run; assumption|].
  split; [|split].
  - eapply Get_chain_at; [exact Hl' | exact Hc' |].
    rewrite lookup_app_r by lia. rewrite Nat.sub_diag. reflexivity.
  - intros i x Hi. rewrite list_lookup_fmap in Hi.
    destruct (cs !! i) as [[a y]|] eqn:Hci; [|inversion Hi]. simpl in Hi.
    injection Hi as ->. eapply Get_chain_at; [exact Hl' | exact Hc' |].
    rewrite lookup_app_l by (eapply lookup_lt_Some; eauto). exact Hci.
  - intros Hvv Hv. rewrite (Search_chain _ l L' _ v Hl' Hc')
      by (rewrite length_app; simpl; lia).
    rewrite (first_index_lookup v _ (length cs) v); [reflexivity| |exact Hvv|].
    + rewrite fmap_app, lookup_app_r by (rewrite length_fmap; lia).
      rewrite length_fmap, Nat.sub_diag. reflexivity.
    + intros j y Hj Hlook. rewrite fmap_app, lookup_app_l in Hlook
        by (rewrite length_fmap; lia).
      rewrite Forall_forall in Hv. apply Hv.
      eapply list_elem_of_lookup_2. exact Hlook.
Qed.

(** After [Prepend(v)] on any list, [Get(0)] returns [v], every older
    element has moved one position up, and [Search(v)] returns 0 when
    [v == v] (as it is for every value but a floating-point NaN). *)
Theorem Prepend_then_lookup h l L cs (v : T) :
  lists h !! l = Some L -> chain (nodes h) (head L) cs ->
  exists h',
    Prepend (Some l) v h = Ok tt h' /\
    Get zero (Some l) 0 h' = Ok (v, None) h' /\
    (go_eqb v v = true -> (Search (Some l) v h') = Ok 0 h') /\
    (forall i x, cs.*2 !! i = Some x ->
       Get zero (Some l) (Z.of_nat (S i)) h' = Ok (x, None) h').
Proof.
  intros Hl Hc. pose proof (lookup_lt_Some _ _ _ Hl) as Hlt.
  pose proof (Prepend_run h l L v Hl) as Hrun1.
  match type of Hrun1 with _ = Ok tt ?x => set (h1 := x) in * end.
  assert (Hl1 : lists h1 !! l = Some (Header (Some (length (nodes h)))
            (match head L with
             | None => Some (length (nodes h))
             | Some _ => tail L
             end) (wrap (size L + 1))))
    by (apply list_lookup_insert_eq; exact Hlt).
  assert (Hn1 : nodes h1 !! length (nodes h) = Some (Node v (head L))).
  { simpl. rewrite lookup_app_r by lia. rewrite Nat.sub_diag. reflexivity. }
  assert (Hc1 : chain (nodes h1) (Some (length (nodes h))) ((length (nodes h), v) :: cs)).
  { split; [reflexivity|]. exists (head L). split; [exact Hn1|].
    apply chain_grow. exact Hc. }
  exists h1. split; [exact Hrun1|]. split; [|split].
  - apply (Get_chain_at h1 l _ _ O (length (nodes h)) v Hl1 Hc1). reflexivity.
  - intros Hv. unfold Search. step. cbn [head]. unfold heap_size at 1.
    unfold bind at 1.
    assert (Hfuel : length (nodes h1) = S (length (nodes h)))
      by (simpl; rewrite length_app; simpl; lia).
    rewrite Hfuel. cbn [Search_loop]. step. cbn [value].
    rewrite Hv. reflexivity.
  - intros i x Hi. rewrite list_lookup_fmap in Hi.
    destruct (cs !! i) as [[a y]|] eqn:Hci; [|inversion Hi]. simpl in Hi.
    injection Hi as ->. eapply Get_chain_at; [exact Hl1 | exact Hc1 |]. exact Hci.
Qed.
End RoundTrips.

(** ** Further properties: lists built by [Append] and [Prepend] alone *)

Section BuiltLists.
Context {T : Type} `{GoEq T}.
Implicit Types (h : heap T) (cs : list (loc * T)) (L : LinkedList).

Lemma chain_head_Some (ns : list (node T)) p c cs : chain ns p (c :: cs) -> p = Some c.1.
Proof. intros (Hp & _). exact Hp. Qed.

Lemma chain_head_None (ns : list (node T)) p cs : chain ns p cs -> p = None -> cs = [].
Proof. intros Hc ->. destruct cs as [|c cs']; [reflexivity|]. destruct Hc as (Hp & _). discriminate Hp. Qed.

Lemma chain_last_node (ns : list (node T)) p cs t x :
  chain ns p cs -> last cs = Some (t, x) -> ns !! t = Some (Node x None).
Proof.
  intros Hc Hlast. apply last_Some in Hlast as (pre & ->).
  apply lseg_app in Hc as (m & _ & _ & nx & Hn & Hnil). simpl in Hn, Hnil. subst nx.
  exact Hn.
Qed.

Lemma run_op_inv h l L cs (o : op) :
  lists h !! l = Some L -> list_rep h L cs -> size L = Z.of_nat (length cs) ->
  Z.of_nat (S (length cs)) < 2 ^ 63 ->
  exists h' L' cs',
    run_op (Some l) o h = Ok tt h' /\ lists h' !! l = Some L' /\
    list_rep h' L' cs' /\ cs'.*2 = apply_op cs.*2 o /\
    size L' = Z.of_nat (length cs') /\ length cs' = S (length cs).
Proof.
  intros Hl Hrep Hsize Hmax. pose proof (lookup_lt_Some _ _ _ Hl) as Hlt.
  destruct o as [v|v]; cbn [run_op apply_op].
  - destruct (Append_result_lookup h l L cs v Hl) as (L' & Hl').
    pose proof (Append_result_rep h l L cs v L' Hl Hrep Hl') as Hrep'.
    exists (Append_result h l L cs v), L', (cs ++ [(length (nodes h), v)]).
    split; [apply Append_run; assumption|]. split; [exact Hl'|]. split; [exact Hrep'|].
    split; [rewrite fmap_app; reflexivity|].
    unfold Append_result in Hl'. simpl in Hl'.
    rewrite list_lookup_insert_eq in Hl' by exact Hlt. injection Hl' as <-.
    rewrite length_app. simpl. rewrite Hsize, wrap_small by lia. split; lia.
  - destruct Hrep as (Hc & Ht). eexists. eexists. exists ((length (nodes h), v) :: cs).
    split; [apply Prepend_run; exact Hl|]. simpl.
    split; [apply list_lookup_insert_eq; exact Hlt|].
    assert (Hnew : chain (nodes h ++ [Node v (head L)]) (Some (length (nodes h)))
                     ((length (nodes h), v) :: cs)).
    { split; [reflexivity|]. exists (head L). split.
      - simpl. rewrite lookup_app_r by lia. rewrite Nat.sub_diag. reflexivity.
      - apply chain_grow. exact Hc. }
    split; [|split; [reflexivity|split; [|reflexivity]]].
    + split; [exact Hnew|]. intros _. simpl. destruct cs as [|c cs'].
      * unfold chain in Hc. simpl in Hc. rewrite Hc. reflexivity.
      * rewrite (chain_head_Some _ _ _ _ Hc). rewrite (Ht ltac:(discriminate)).
        reflexivity.
    + cbn [size]. rewrite Hsize, wrap_small by lia. lia.
Qed.

Lemma run_ops_inv (os : list op) : forall h l L cs,
  lists h !! l = Some L -> list_rep h L cs -> size L = Z.of_nat (length cs) ->
  Z.of_nat (length cs + length os) < 2 ^ 63 ->
  exists h' L' cs',
    run_ops (Some l) os h = Ok tt h' /\ lists h' !! l = Some L' /\
    list_rep h' L' cs' /\ cs'.*2 = foldl apply_op cs.*2 os /\
    size L' = Z.of_nat (length cs') /\ length cs' = (length cs + length os)%nat.
Proof.
  induction os as [|o os IH]; intros h l L cs Hl Hrep Hsize Hmax.
  - exists h, L, cs. repeat split; try apply Hrep; auto.
  - cbn [length] in Hmax.
    destruct (run_op_inv h l L cs o Hl Hrep Hsize ltac:(lia))
      as (h1 & L1 & cs1 & Hrun1 & Hl1 & Hrep1 & Hcs1 & Hsize1 & Hlen1).
    destruct (IH h1 l L1 cs1 Hl1 Hrep1 Hsize1 ltac:(lia))
      as (h' & L' & cs' & Hrun & Hl' & Hrep' & Hcs' & Hsize' & Hlen').
    exists h', L', cs'. split; [|split; [exact Hl'|split; [exact Hrep'|]]].
    + cbn [run_ops]. erewrite bind_ok by exact Hrun1. exact Hrun.
    + split; [|split; [exact Hsize'|]].
      * cbn [foldl]. rewrite <- Hcs1. exact Hcs'.
      * rewrite Hlen', Hlen1. cbn [length]. lia.
Qed.

(** A list that only ever saw [Append] and [Prepend] calls, in any order
    and number within the range of an [int], is as the data model wants
    it: every call has returned; the chain holds the values in the order
    those calls define; [head] is [nil] exactly when no call was made, and
    so is [tail]; [tail] is the last node of the chain and its [next] is
    [nil]; and [size] is the number of elements. *)
Theorem Append_Prepend_invariants (h : heap T) (os : list op) :
  Z.of_nat (length os) < 2 ^ 63 ->
  exists l h1 h2 L cs,
    NewLinkedList h = Ok (Some l) h1 /\
    run_ops (Some l) os h1 = Ok tt h2 /\
    lists h2 !! l = Some L /\
    chain (nodes h2) (head L) cs /\
    cs.*2 = foldl apply_op [] os /\
    (head L = None <-> os = []) /\
    (tail L = None <-> os = []) /\
    (forall t, tail L = Some t ->
       exists x, last cs = Some (t, x) /\ nodes h2 !! t = Some (Node x None)) /\
    size L = Z.of_nat (length os).
Proof.
  intros Hmax. set (l := length (lists h)).
  set (h1 := Heap (nodes h) (lists h ++ [Header None None 0])).
  assert (Hl : lists h1 !! l = Some (Header None None 0)).
  { unfold h1, l. simpl. rewrite lookup_app_r by lia. rewrite Nat.sub_diag.
    reflexivity. }
  assert (Hrep : list_rep h1 (Header None None 0) []).
  { split; [reflexivity | intros Hne; congruence]. }
  destruct (run_ops_inv os h1 l _ [] Hl Hrep eq_refl Hmax)
    as (h2 & L & cs & Hrun & Hl2 & (Hc & Ht) & Hcs & Hsize & Hlen).
  simpl in Hlen. exists l, h1, h2, L, cs.
  split; [reflexivity|]. split; [exact Hrun|]. split; [exact Hl2|].
  split; [exact Hc|]. split; [exact Hcs|].
  assert (Hnil : cs = [] <-> os = []).
  { split; intros Hz; [destruct os | destruct cs]; try reflexivity;
      rewrite Hz in Hlen; discriminate Hlen. }
  split; [|split; [|split]].
  - rewrite <- Hnil. split; [apply (chain_head_None _ _ _ Hc)|].
    intros ->. exact Hc.
  - rewrite <- Hnil. split.
    + intros Htl. destruct cs as [|c cs']; [reflexivity|].
      rewrite (Ht ltac:(discriminate)) in Htl.
      destruct (last (c :: cs')) eqn:Hlast; [discriminate Htl|].
      apply last_None in Hlast. exact Hlast.
    + intros ->. destruct os as [|o os'].
      * simpl in Hrun. injection Hrun as <-. rewrite Hl in Hl2. injection Hl2 as <-.
        reflexivity.
      * discriminate Hlen.
  - intros t Htl. destruct cs as [|c cs'].
    + destruct os as [|o os']; [|discriminate Hlen].
      simpl in Hrun. injection Hrun as <-. rewrite Hl in Hl2. injection Hl2 as <-.
      discriminate Htl.
    + rewrite (Ht ltac:(discriminate)) in Htl.
      destruct (last (c :: cs')) as [[t' x]|] eqn:Hlast; [|discriminate Htl].
      simpl in Htl. injection Htl as ->. exists x. split; [reflexivity|].
      eapply chain_last_node; eauto.
  - rewrite Hsize, Hlen. reflexivity.
Qed.
End BuiltLists.

(** ** Further properties: sharing after concatenation, stale tail after removal *)

Section Sharing.
Context {T : Type} `{GoEq T}.
Implicit Types (h : heap T) (cs : list (loc * T)) (L : LinkedList).

(** After [ConcatenarListas] of two non-empty lists that are as the data
    model wants them, [list1] is again such a list, now over both chains;
    the header of [list2] is not written and [list2] still is such a list
    over its own elements, but its nodes are now also nodes of [list1] and
    the two headers have the same [tail]: the result aliases [list2]. *)
Theorem ConcatenarListas_shares (recv : ptr) h a1 a2 L1 L2 cs1 cs2 :
  lists h !! a1 = Some L1 -> lists h !! a2 = Some L2 ->
  list_rep h L1 cs1 -> list_rep h L2 cs2 ->
  cs1 <> [] -> cs2 <> [] -> (forall a, a ∈ cs1.*1 -> a ∉ cs2.*1) ->
  exists h' L1',
    ConcatenarListas recv (Some a1) (Some a2) h = Ok (Some a1) h' /\
    lists h' !! a1 = Some L1' /\ list_rep h' L1' (cs1 ++ cs2) /\
    lists h' !! a2 = Some L2 /\ list_rep h' L2 cs2 /\
    tail L1' = tail L2 /\ size L1' = wrap (size L1 + size L2).
Proof.
  intros Hl1 Hl2 (Hc1 & Ht1) (Hc2 & Ht2) Hne1 Hne2 Hdis.
  specialize (Ht1 Hne1). specialize (Ht2 Hne2).
  pose proof (chain_NoDup _ _ _ Hc1) as Hnd. pose proof Hc1 as Hc1'.
  destruct (last cs1) as [[t x]|] eqn:Hlast; [|apply last_None in Hlast; congruence].
  apply last_Some in Hlast as (pre & ->). simpl in Ht1.
  apply lseg_app in Hc1 as (m & Hpre & -> & nx & Hn & Hnil). simpl in Hn, Hnil.
  subst nx.
  assert (Hne : a1 <> a2).
  { intros ->. rewrite Hl1 in Hl2. injection Hl2 as <-.
    pose proof (chain_func _ _ _ _ Hc1' Hc2) as <-.
    apply (Hdis t); rewrite fmap_app; apply elem_of_app; right; simpl; left. }
  assert (Hh1 : exists c, head L1 = Some c).
  { destruct pre; destruct Hc1' as (Hh & _); eauto. }
  destruct Hh1 as (c1 & Hh1).
  assert (Hh2 : exists c, head L2 = Some c).
  { destruct cs2 as [|c2 cs2']; [congruence|]. destruct Hc2 as (-> & _). eauto. }
  destruct Hh2 as (c2 & Hh2).
  pose proof (lookup_lt_Some _ _ _ Hl1) as Hlt1.
  assert (Ht : t ∉ cs2.*1).
  { apply (Hdis t). rewrite fmap_app. apply elem_of_app. right. simpl. left. }
  assert (Hc2' : chain (<[t := Node x (head L2)]> (nodes h)) (head L2) cs2).
  { eapply lseg_frame; [|exact Hc2]. intros a Ha.
    apply list_lookup_insert_ne. intros Heq. subst a. exact (Ht Ha). }
  eexists. eexists. split.
  { unfold ConcatenarListas. step. rewrite Hh1. step. rewrite Hh2. step. rewrite Ht1.
    erewrite bind_ok by (eapply set_next_ok; eauto).
    erewrite bind_ok by (eapply get_tail_ok; simpl; eauto).
    erewrite bind_ok by (eapply set_tail_ok; simpl; eauto).
    erewrite bind_ok
      by (eapply get_size_ok; simpl; apply list_lookup_insert_eq; exact Hlt1).
    erewrite bind_ok
      by (eapply get_size_ok; simpl; rewrite list_lookup_insert_ne by exact Hne;
          exact Hl2).
    erewrite bind_ok
      by (eapply set_size_ok; simpl; apply list_lookup_insert_eq; exact Hlt1).
    unfold ret. simpl. rewrite list_insert_insert_eq. reflexivity. }
  simpl. split; [apply list_lookup_insert_eq; exact Hlt1|]. simpl.
  rewrite Hh2 in Hc2'.
  split; [split|].
  - unfold chain. rewrite <- app_assoc. apply lseg_app. exists (Some t). split.
    + eapply lseg_frame; [|exact Hpre]. intros a Ha.
      rewrite fmap_app in Hnd. apply NoDup_app in Hnd as (_ & Hd & _).
      apply list_lookup_insert_ne. intros ->. apply (Hd _ Ha). simpl. left.
    + apply (lseg_app _ _ [(t, x)]). exists (Some c2). split; [|exact Hc2'].
      simpl. split; [reflexivity|]. exists (Some c2). split; [|reflexivity].
      apply list_lookup_insert_eq. eapply lookup_lt_Some; eauto.
  - intros _. simpl. rewrite Ht2, last_app.
    destruct (last cs2) eqn:Hl2'; [reflexivity|].
    apply last_None in Hl2'. congruence.
  - split; [rewrite list_lookup_insert_ne by exact Hne; exact Hl2|].
    split; [split; [simpl; rewrite Hh2; exact Hc2' | intros _; exact Ht2]|].
    split; reflexivity.
Qed.

(** The store after [Append] on a list with a first node, whatever node
    its [tail] field points to. *)
Lemma Append_run_tail h l L (v : T) a t nt :
  lists h !! l = Some L -> head L = Some a -> tail L = Some t ->
  nodes h !! t = Some nt ->
  Append (Some l) v h
  = Ok tt (Heap (<[t := Node (value nt) (Some (length (nodes h)))]> (nodes h)
                   ++ [Node v None])
             (<[l := Header (head L) (Some (length (nodes h))) (wrap (size L + 1))]>
                (lists h))).
Proof.
  intros Hl Hh Ht Hn. pose proof (lookup_lt_Some _ _ _ Hl) as Hlt.
  pose proof (lookup_lt_Some _ _ _ Hn) as Hlt'.
  unfold Append, newNode, alloc_node, get_head, get_tail, set_next, set_tail, incr_size,
    get_size, set_size, load_list, store_list, load_node, store_node, bind, ret.
  simpl. rewrite Hl, Hh. simpl. rewrite Hl, Ht. simpl.
  rewrite lookup_app_l by lia. rewrite Hn. simpl. rewrite Hl. simpl.
  repeat (rewrite list_lookup_insert_eq by (rewrite ?length_insert; lia); simpl).
  rewrite !list_insert_insert_eq, insert_app_l by lia. rewrite Hh. reflexivity.
Qed.

Lemma remove_first_last (x : T) t pre :
  Forall (fun y => go_eqb y x = false) pre.*2 -> go_eqb x x = true ->
  remove_first x (pre ++ [(t, x)]) = pre.
Proof.
  induction pre as [|c pre IH]; intros Hx Hxx.
  - cbn [app remove_first snd]. rewrite Hxx. reflexivity.
  - rewrite fmap_cons in Hx. apply Forall_cons in Hx as (Hne & Hx).
    cbn [app remove_first]. rewrite Hne.
    rewrite (IH Hx Hxx). reflexivity.
Qed.

(** A value appended after the last element was removed is lost.  On a list
    of two or more elements whose [tail] is its last node, let the last
    element [x] have [x == x] and let no earlier element be [==] to it.
    Then [Remove(x)] leaves [tail] on the unlinked node; a following
    [Append(v)] returns, but links the new node behind that unlinked node:
    the chain still holds the earlier elements only, and [tail] is the new
    node, which the chain never reaches. *)
Theorem Remove_last_then_Append h l L pre t (x v : T) :
  lists h !! l = Some L -> list_rep h L (pre ++ [(t, x)]) ->
  pre <> [] -> Forall (fun y => go_eqb y x = false) pre.*2 -> go_eqb x x = true ->
  exists h1 h2 L2,
    (Remove (Some l) x h) = Ok tt h1 /\
    Append (Some l) v h1 = Ok tt h2 /\
    lists h2 !! l = Some L2 /\
    chain (nodes h2) (head L2) pre /\
    tail L2 = Some (length (nodes h)) /\
    length (nodes h) ∉ pre.*1.
Proof.
  intros Hl (Hc & Ht) Hne Hx Hxx. pose proof (lookup_lt_Some _ _ _ Hl) as Hlt.
  specialize (Ht ltac:(intros Heq; apply app_eq_nil in Heq as (_ & Heq); discriminate)).
  rewrite last_snoc in Ht. simpl in Ht.
  assert (Hv : Exists (fun y => go_eqb y x = true) (pre ++ [(t, x)]).*2).
  { rewrite fmap_app. apply Exists_app. right. left. exact Hxx. }
  destruct (Remove_found_run h l L _ x Hl Hc Hv) as (ns' & hd' & Hrun1 & Hc1 & Hlen).
  rewrite (remove_first_last x t pre Hx Hxx) in Hc1.
  pose proof (chain_NoDup _ _ _ Hc) as Hnd.
  rewrite fmap_app in Hnd. apply NoDup_app in Hnd as (_ & Hdis & _).
  assert (Htlt : (t < length ns')%nat).
  { rewrite Hlen. eapply lseg_bound; [exact Hc|]. rewrite fmap_app.
    apply elem_of_app. right. left. }
  destruct (lookup_lt_is_Some_2 ns' t Htlt) as (nt & Hnt).
  destruct pre as [|c pre']; [congruence|].
  pose proof (chain_head_Some _ _ _ _ Hc1) as Hhd. subst hd'.
  match type of Hrun1 with _ = Ok tt ?s => set (h1 := s) in * end.
  assert (Hl1 : lists h1 !! l = Some (Header (Some c.1) (tail L) (wrap (size L - 1))))
    by (apply list_lookup_insert_eq; exact Hlt).
  pose proof (Append_run_tail h1 l _ v c.1 t nt Hl1 eq_refl Ht Hnt) as Hrun2.
  eexists. eexists. eexists. split; [exact Hrun1|]. split; [exact Hrun2|].
  simpl. split; [apply list_lookup_insert_eq; rewrite length_insert; exact Hlt|].
  simpl. rewrite Hlen. split; [|split; [reflexivity|]].
  - eapply lseg_frame; [|exact Hc1]. intros a Ha.
    assert (a <> t) by (intros ->; apply (Hdis _ Ha); simpl; left).
    assert (a < length ns')%nat by (eapply lseg_bound; eauto).
    rewrite lookup_app_l by (rewrite length_insert; lia).
    apply list_lookup_insert_ne. congruence.
  - intros Hin. assert (length (nodes h) < length ns')%nat; [|lia].
    eapply lseg_bound; eauto.
Qed.

(** Removing the only element does no such harm: on a list of one element
    [x] with [x == x], [Remove(x)] followed by [Append(v)] gives the
    one-element list of [v], with [tail] on its node. *)
Theorem Remove_only_then_Append h l L t (x v : T) :
  lists h !! l = Some L -> chain (nodes h) (head L) [(t, x)] ->
  go_eqb x x = true ->
  exists h1 h2 L2,
    (Remove (Some l) x h) = Ok tt h1 /\
    Append (Some l) v h1 = Ok tt h2 /\
    lists h2 !! l = Some L2 /\
    list_rep h2 L2 [(length (nodes h), v)].
Proof.
  intros Hl Hc Hxx. pose proof (lookup_lt_Some _ _ _ Hl) as Hlt.
  assert (Hv : Exists (fun y => go_eqb y x = true) [(t, x)].*2) by (left; exact Hxx).
  destruct (Remove_found_run h l L _ x Hl Hc Hv) as (ns' & hd' & Hrun1 & Hc1 & Hlen).
  cbn [remove_first snd] in Hc1. rewrite Hxx in Hc1.
  unfold chain in Hc1. simpl in Hc1. subst hd'.
  match type of Hrun1 with _ = Ok tt ?s => set (h1 := s) in * end.
  assert (Hl1 : lists h1 !! l = Some (Header None (tail L) (wrap (size L - 1))))
    by (apply list_lookup_insert_eq; exact Hlt).
  assert (Hrep1 : list_rep h1 (Header None (tail L) (wrap (size L - 1))) []).
  { split; [reflexivity | intros Hne; congruence]. }
  destruct (Append_result_lookup h1 l _ [] v Hl1) as (L2 & Hl2).
  pose proof (Append_result_rep h1 l _ [] v L2 Hl1 Hrep1 Hl2) as Hrep2.
  exists h1, (Append_result h1 l (Header None (tail L) (wrap (size L - 1))) [] v), L2.
  split; [exact Hrun1|]. split; [apply Append_run; assumption|].
  split; [exact Hl2|]. simpl in Hrep2. rewrite Hlen in Hrep2. exact Hrep2.
Qed.
End Sharing.

(** ** Further properties: interleaving as a run of appends *)

Section InterleaveAsAppends.
Context {T : Type} `{GoEq T}.
Implicit Types (h : heap T) (cs acc : list (loc * T)) (L : LinkedList).

Lemma bind_assoc {A B C} (c : M T A) (k1 : A -> M T B) (k2 : B -> M T C) h :
  bind (bind c k1) k2 h = bind c (fun a => bind (k1 a) k2) h.
Proof. unfold bind. destruct (c h); reflexivity. Qed.

Lemma Resto_loop_nil fuel (r : ptr) h : Resto_loop (T := T) fuel r None h = Ok tt h.
Proof. destruct fuel; reflexivity. Qed.

Lemma Resto_as_Appends h0 cs : forall p fuel h acc,
  chain (nodes h0) p cs -> (length cs <= fuel)%nat -> building h0 h acc ->
  Resto_loop fuel (Some (length (lists h0))) p h
  = Appends (Some (length (lists h0))) cs.*2 h.
Proof.
  induction cs as [|[a x] cs IH]; intros p fuel h acc Hc Hf Hb.
  - unfold chain in Hc. simpl in Hc. subst p. apply Resto_loop_nil.
  - destruct Hc as (-> & nx & Hn & Hc). simpl in Hn.
    destruct fuel as [|fuel]; [simpl in Hf; lia|]. simpl in Hf.
    destruct (building_Append h0 h acc x Hb) as (h1 & Hrun1 & Hb1).
    simpl Resto_loop. rewrite fmap_cons. cbn [snd Appends].
    erewrite bind_ok by (eapply get_value_ok; eapply building_value; eauto).
    cbn [value]. rewrite !(bind_ok _ _ _ _ _ Hrun1).
    erewrite bind_ok by (eapply get_next_ok; eapply building_value; eauto).
    cbn [next]. apply (IH nx fuel h1 _ Hc ltac:(lia) Hb1).
Qed.

Lemma Intercalar_as_Appends h0 cs1 : forall cs2 p1 p2 fuel fuel' h acc,
  chain (nodes h0) p1 cs1 -> chain (nodes h0) p2 cs2 ->
  (length cs1 <= fuel)%nat -> (length cs1 <= fuel')%nat -> (length cs2 <= fuel')%nat ->
  building h0 h acc ->
  bind (Intercalar_loop fuel (Some (length (lists h0))) p1 p2)
    (fun cur =>
       bind (Resto_loop fuel' (Some (length (lists h0))) (fst cur))
         (fun _ => bind (Resto_loop fuel' (Some (length (lists h0))) (snd cur))
            (fun _ => ret (Some (length (lists h0)))))) h
  = bind (Appends (Some (length (lists h0))) (interleave cs1.*2 cs2.*2))
      (fun _ => ret (Some (length (lists h0)))) h.
Proof.
  induction cs1 as [|[a1 x1] cs1 IH];
    intros cs2 p1 p2 fuel fuel' h acc Hc1 Hc2 Hf Hf1 Hf2 Hb.
  - pose proof Hc1 as Hp1. unfold chain in Hp1. simpl in Hp1. subst p1.
    assert (Hloop : Intercalar_loop fuel (Some (length (lists h0))) None p2 h
                    = Ok (None, p2) h) by (destruct fuel; reflexivity).
    rewrite (bind_ok _ _ _ _ _ Hloop). cbn [fst snd].
    rewrite (bind_ok _ _ _ _ _ (Resto_loop_nil fuel' _ h)).
    cbn [fmap list_fmap interleave]. unfold bind.
    rewrite (Resto_as_Appends h0 cs2 p2 fuel' h acc Hc2 Hf2 Hb). reflexivity.
  - destruct cs2 as [|[a2 x2] cs2].
    + pose proof Hc2 as Hp2. unfold chain in Hp2. simpl in Hp2. subst p2.
      assert (Hloop : Intercalar_loop fuel (Some (length (lists h0))) p1 None h
                      = Ok (p1, None) h) by (destruct fuel, p1; reflexivity).
      rewrite (bind_ok _ _ _ _ _ Hloop). cbn [fst snd].
      rewrite fmap_nil, interleave_nil_r. unfold bind.
      rewrite (Resto_as_Appends h0 _ p1 fuel' h acc Hc1 Hf1 Hb).
      destruct (Appends (Some (length (lists h0))) ((a1, x1) :: cs1).*2 h)
        as [u h'| |]; [|reflexivity..].
      rewrite Resto_loop_nil. reflexivity.
    + destruct Hc1 as (-> & n1 & Hn1 & Hc1). destruct Hc2 as (-> & n2 & Hn2 & Hc2).
      simpl in Hn1, Hn2. destruct fuel as [|fuel]; [simpl in Hf; lia|].
      simpl in Hf, Hf1, Hf2.
      destruct (building_Append h0 h acc x1 Hb) as (h1 & Hrun1 & Hb1).
      destruct (building_Append h0 h1 _ x2 Hb1) as (h2 & Hrun2 & Hb2).
      simpl Intercalar_loop. rewrite !fmap_cons. cbn [snd interleave Appends].
      rewrite !bind_assoc.
      erewrite bind_ok by (eapply get_value_ok; eapply building_value; eauto).
      cbn [value]. rewrite !bind_assoc. rewrite !(bind_ok _ _ _ _ _ Hrun1).
      rewrite !bind_assoc.
      erewrite bind_ok by (eapply get_value_ok; eapply building_value; eauto).
      cbn [value]. rewrite !bind_assoc. rewrite !(bind_ok _ _ _ _ _ Hrun2).
      rewrite !bind_assoc.
      erewrite bind_ok by (eapply get_next_ok; eapply building_value; eauto).
      rewrite !bind_assoc.
      erewrite bind_ok by (eapply get_next_ok; eapply building_value; eauto).
      cbn [next].
      eapply (IH cs2 n1 n2 fuel fuel' h2 _ Hc1 Hc2); [lia | lia | lia | exact Hb2].
Qed.

(** [IntercalarListas] on two lists does what a caller would do by hand:
    it is [NewLinkedList] followed by one [Append], in order, for each
    value of the interleaving of the two inputs; the pointer returned and
    the whole final store are the same. *)
Theorem IntercalarListas_as_Appends (recv : ptr) h a1 a2 L1 L2 cs1 cs2 :
  lists h !! a1 = Some L1 -> lists h !! a2 = Some L2 ->
  chain (nodes h) (head L1) cs1 -> chain (nodes h) (head L2) cs2 ->
  IntercalarListas recv (Some a1) (Some a2) h
  = bind NewLinkedList
      (fun r => bind (Appends r (interleave cs1.*2 cs2.*2)) (fun _ => ret r)) h.
Proof.
  intros Hl1 Hl2 Hc1 Hc2.
  set (h1 := Heap (nodes h) (lists h ++ [Header None None 0])).
  assert (Hb1 : building h h1 []).
  { exists (Header None None 0), []. split; [reflexivity|].
    split; [simpl; rewrite app_nil_r; reflexivity|].
    split; [|constructor]. split; [reflexivity | intros Hne; congruence]. }
  pose proof (chain_length _ _ _ Hc1) as Hlen1.
  pose proof (chain_length _ _ _ Hc2) as Hlen2.
  unfold IntercalarListas, NewLinkedList. unfold bind at 1. unfold heap_size.
  unfold bind at 1. unfold alloc_list. unfold bind at 5. fold h1.
  erewrite bind_ok
    by (eapply get_head_ok; simpl; rewrite lookup_app_l;
        [exact Hl1 | eapply lookup_lt_Some; eauto]).
  erewrite bind_ok
    by (eapply get_head_ok; simpl; rewrite lookup_app_l;
        [exact Hl2 | eapply lookup_lt_Some; eauto]).
  apply (Intercalar_as_Appends h cs1 cs2 _ _ _ _ h1 [] Hc1 Hc2 Hlen1 Hlen1 Hlen2 Hb1).
Qed.
End InterleaveAsAppends.

(** ** The further properties on concrete stores *)

(** [Size_spec] on a list of three nodes whose [size] field says 40. *)
Lemma Size_spec_witness :
  lists stale_store !! 0%nat = Some list_stale /\
  chain (nodes stale_store) (head list_stale) cells_135 /\
  Z.of_nat (length cells_135) < 2 ^ 63 /\
  Size (Some 0%nat) stale_store = Ok (Z.of_nat (length cells_135)) stale_store.
Proof.
  assert (Hl : lists stale_store !! 0%nat = Some list_stale) by reflexivity.
  assert (Hc : chain (nodes stale_store) (head list_stale) cells_135) by chain_tac.
  assert (Hmax : Z.of_nat (length cells_135) < 2 ^ 63) by reflexivity.
  split; [exact Hl|]. split; [exact Hc|]. split; [exact Hmax|].
  exact (Size_spec stale_store 0%nat list_stale cells_135 Hl Hc Hmax).
Defined.

(** [Search_spec] on the list [[1 3 5]]. *)
Lemma Search_spec_witness :
  lists two_lists !! 0%nat = Some list_135 /\
  chain (nodes two_lists) (head list_135) cells_135 /\
  Z.of_nat (length cells_135) < 2 ^ 63 /\
  (forall v, Forall (fun x => go_eqb x v = false) cells_135.*2 ->
     (Search (Some 0%nat) v two_lists) = Ok (-1) two_lists) /\
  (forall i x v, cells_135.*2 !! i = Some x -> go_eqb x v = true ->
     (forall j y, (j < i)%nat -> cells_135.*2 !! j = Some y -> go_eqb y v = false) ->
     (Search (Some 0%nat) v two_lists) = Ok (Z.of_nat i) two_lists) /\
  (Search (Some 0%nat) 4 two_lists) = Ok (-1) two_lists /\
  (Search (Some 0%nat) 5 two_lists) = Ok 2 two_lists.
Proof.
  assert (Hl : lists two_lists !! 0%nat = Some list_135) by reflexivity.
  assert (Hc : chain (nodes two_lists) (head list_135) cells_135) by chain_tac.
  assert (Hmax : Z.of_nat (length cells_135) < 2 ^ 63) by reflexivity.
  split; [exact Hl|]. split; [exact Hc|]. split; [exact Hmax|].
  pose proof (Search_spec two_lists 0%nat list_135 cells_135 Hl Hc Hmax) as (Ha & Hf).
  split; [exact Ha|]. split; [exact Hf|]. split.
  - apply Ha. repeat constructor.
  - apply (Hf 2%nat 5 5); [reflexivity | reflexivity |].
    intros [|[|j]] y Hj Hy; [| |lia]; simpl in Hy; inversion Hy; reflexivity.
Defined.

(** [Prepend_spec] with the value 9 on the list [[1 3 5]]. *)
Lemma Prepend_spec_witness :
  lists two_lists !! 0%nat = Some list_135 /\
  chain (nodes two_lists) (head list_135) cells_135 /\
  exists h' L',
    Prepend (Some 0%nat) 9 two_lists = Ok tt h' /\ lists h' !! 0%nat = Some L' /\
    chain (nodes h') (head L') ((length (nodes two_lists), 9) :: cells_135) /\
    size L' = wrap (size list_135 + 1) /\
    (cells_135 = [] -> tail L' = Some (length (nodes two_lists))) /\
    (cells_135 <> [] -> tail L' = tail list_135) /\
    (forall a, (a < length (nodes two_lists))%nat ->
       nodes h' !! a = nodes two_lists !! a) /\
    (forall l', l' <> 0%nat -> lists h' !! l' = lists two_lists !! l') /\
    (list_rep two_lists list_135 cells_135 ->
     list_rep h' L' ((length (nodes two_lists), 9) :: cells_135)).
Proof.
  assert (Hl : lists two_lists !! 0%nat = Some list_135) by reflexivity.
  assert (Hc : chain (nodes two_lists) (head list_135) cells_135) by chain_tac.
  split; [exact Hl|]. split; [exact Hc|].
  exact (Prepend_spec two_lists 0%nat list_135 cells_135 9 Hl Hc).
Defined.

(** [Append_spec] with the value 9 on the list [[1 3 5]]. *)
Lemma Append_spec_witness :
  lists two_lists !! 0%nat = Some list_135 /\
  list_rep two_lists list_135 cells_135 /\
  exists h' L',
    Append (Some 0%nat) 9 two_lists = Ok tt h' /\ lists h' !! 0%nat = Some L' /\
    list_rep h' L' (cells_135 ++ [(length (nodes two_lists), 9)]) /\
    tail L' = Some (length (nodes two_lists)) /\
    size L' = wrap (size list_135 + 1) /\
    (forall l', l' <> 0%nat -> lists h' !! l' = lists two_lists !! l').
Proof.
  assert (Hl : lists two_lists !! 0%nat = Some list_135) by reflexivity.
  assert (Hrep : list_rep two_lists list_135 cells_135)
    by (split; [chain_tac | reflexivity]).
  split; [exact Hl|]. split; [exact Hrep|].
  exact (Append_spec two_lists 0%nat list_135 cells_135 9 Hl Hrep).
Defined.

(** [Remove_absent] with the value 4 on the list [[1 3 5]]. *)
Lemma Remove_absent_witness :
  lists two_lists !! 0%nat = Some list_135 /\
  chain (nodes two_lists) (head list_135) cells_135 /\
  Forall (fun x => go_eqb x 4 = false) cells_135.*2 /\
  (Remove (Some 0%nat) 4 two_lists) = Ok tt two_lists.
Proof.
  assert (Hl : lists two_lists !! 0%nat = Some list_135) by reflexivity.
  assert (Hc : chain (nodes two_lists) (head list_135) cells_135) by chain_tac.
  assert (Hv : Forall (fun x => go_eqb x 4 = false) cells_135.*2)
    by (repeat constructor).
  split; [exact Hl|]. split; [exact Hc|]. split; [exact Hv|].
  exact (Remove_absent two_lists 0%nat list_135 cells_135 4 Hl Hc Hv).
Defined.

(** [Remove_found] with the value 3 on the list [[1 3 5]]. *)
Lemma Remove_found_witness :
  lists two_lists !! 0%nat = Some list_135 /\
  chain (nodes two_lists) (head list_135) cells_135 /\
  Exists (fun x => go_eqb x 3 = true) cells_135.*2 /\
  exists h' L' pre c post,
    (Remove (Some 0%nat) 3 two_lists) = Ok tt h' /\ lists h' !! 0%nat = Some L' /\
    cells_135 = pre ++ c :: post /\
    Forall (fun x => go_eqb x 3 = false) pre.*2 /\ go_eqb c.2 3 = true /\
    chain (nodes h') (head L') (pre ++ post) /\
    size L' = wrap (size list_135 - 1) /\
    tail L' = tail list_135 /\
    length (nodes h') = length (nodes two_lists) /\
    (forall l', l' <> 0%nat -> lists h' !! l' = lists two_lists !! l').
Proof.
  assert (Hl : lists two_lists !! 0%nat = Some list_135) by reflexivity.
  assert (Hc : chain (nodes two_lists) (head list_135) cells_135) by chain_tac.
  assert (Hv : Exists (fun x => go_eqb x 3 = true) cells_135.*2)
    by (right; left; reflexivity).
  split; [exact Hl|]. split; [exact Hc|]. split; [exact Hv|].
  exact (Remove_found two_lists 0%nat list_135 cells_135 3 Hl Hc Hv).
Defined.

(** [queries_pure] on the list [[1 3 5]]: each query returns, and returns
    the store it was given. *)
Lemma queries_pure_witness :
  (exists r h', Get 0 (Some 0%nat) 1 two_lists = Ok r h' /\ h' = two_lists) /\
  (exists r h', (Search (Some 0%nat) 5 two_lists) = Ok r h' /\ h' = two_lists) /\
  (exists r h', String pretty (Some 0%nat) two_lists = Ok r h' /\ h' = two_lists) /\
  (exists r h', Size (Some 0%nat) two_lists = Ok r h' /\ h' = two_lists).
Proof.
  destruct (queries_pure 0 pretty (Some 0%nat) two_lists) as (Hg & Hs & Hr & Hz).
  split; [|split; [|split]].
  - destruct (Get 0 (Some 0%nat) 1 two_lists) as [r h'| |] eqn:Hrun;
      [|vm_compute in Hrun; discriminate Hrun..].
    exists r, h'. split; [reflexivity|]. exact (Hg 1 r h' Hrun).
  - destruct (Search (Some 0%nat) 5 two_lists) as [r h'| |] eqn:Hrun;
      [|vm_compute in Hrun; discriminate Hrun..].
    exists r, h'. split; [reflexivity|]. exact (Hs 5 r h' Hrun).
  - destruct (String pretty (Some 0%nat) two_lists) as [r h'| |] eqn:Hrun;
      [|vm_compute in Hrun; discriminate Hrun..].
    exists r, h'. split; [reflexivity|]. exact (Hr r h' eq_refl).
  - destruct (Size (Some 0%nat) two_lists) as [r h'| |] eqn:Hrun;
      [|vm_compute in Hrun; discriminate Hrun..].
    exists r, h'. split; [reflexivity|]. exact (Hz r h' eq_refl).
Defined.

(** [Remove_relinked] for the removal of the last element of [[1 3 5]]. *)
Lemma Remove_relinked_witness :
  exists h', (Remove (Some 0%nat) 5 two_lists) = Ok tt h' /\ relinked two_lists h'.
Proof.
  destruct (Remove (Some 0%nat) 5 two_lists) as [[] h'| |] eqn:Hrun;
    [|vm_compute in Hrun; discriminate Hrun..].
  exists h'. split; [reflexivity|].
  exact (Remove_relinked (Some 0%nat) 5 two_lists h' Hrun).
Defined.

(** [InsertAt_inside]: the value 9 at position 2 of [[1 3 5]]. *)
Lemma InsertAt_inside_witness :
  lists two_lists !! 0%nat = Some list_135 /\
  chain (nodes two_lists) (head list_135) cells_135 /\
  1 <= 2 <= Z.of_nat (length cells_135) /\
  exists h' L',
    InsertAt (Some 0%nat) 9 2 two_lists = Ok tt h' /\ lists h' !! 0%nat = Some L' /\
    chain (nodes h') (head L')
      (take (Z.to_nat 2) cells_135 ++ (length (nodes two_lists), 9)
         :: drop (Z.to_nat 2) cells_135) /\
    head L' = head list_135 /\ tail L' = tail list_135 /\
    size L' = incr_times (Z.to_nat (2 - 1)) (size list_135).
Proof.
  assert (Hl : lists two_lists !! 0%nat = Some list_135) by reflexivity.
  assert (Hc : chain (nodes two_lists) (head list_135) cells_135) by chain_tac.
  assert (Hp : 1 <= 2 <= Z.of_nat (length cells_135)) by (simpl; lia).
  split; [exact Hl|]. split; [exact Hc|]. split; [exact Hp|].
  exact (InsertAt_inside two_lists 0%nat list_135 cells_135 9 2 Hl Hc Hp).
Defined.

(** [InsertAt_beyond]: the value 9 at position 7 of [[1 3 5]]. *)
Lemma InsertAt_beyond_witness :
  lists two_lists !! 0%nat = Some list_135 /\
  chain (nodes two_lists) (head list_135) cells_135 /\
  Z.of_nat (length cells_135) < 7 /\
  exists h' L',
    InsertAt (Some 0%nat) 9 7 two_lists = Ok tt h' /\ lists h' !! 0%nat = Some L' /\
    chain (nodes h') (head L') cells_135 /\
    head L' = head list_135 /\ tail L' = tail list_135 /\
    size L' = incr_times (length cells_135) (size list_135) /\
    (forall a, (a < length (nodes two_lists))%nat ->
       nodes h' !! a = nodes two_lists !! a) /\
    (forall l', l' <> 0%nat -> lists h' !! l' = lists two_lists !! l').
Proof.
  assert (Hl : lists two_lists !! 0%nat = Some list_135) by reflexivity.
  assert (Hc : chain (nodes two_lists) (head list_135) cells_135) by chain_tac.
  assert (Hp : Z.of_nat (length cells_135) < 7) by reflexivity.
  split; [exact Hl|]. split; [exact Hc|]. split; [exact Hp|].
  exact (InsertAt_beyond two_lists 0%nat list_135 cells_135 9 7 Hl Hc Hp).
Defined.

(** [InsertAt_zero]: the value 9 at position 0 of [[1 3 5]]. *)
Lemma InsertAt_zero_witness :
  lists two_lists !! 0%nat = Some list_135 /\
  chain (nodes two_lists) (head list_135) cells_135 /\
  exists h' L',
    InsertAt (Some 0%nat) 9 0 two_lists = Ok tt h' /\ lists h' !! 0%nat = Some L' /\
    chain (nodes h') (head L') ((S (length (nodes two_lists)), 9) :: cells_135) /\
    size L' = wrap (wrap (size list_135 + 1) + 1) /\
    (cells_135 <> [] -> tail L' = tail list_135) /\
    (forall a, (a < length (nodes two_lists))%nat ->
       nodes h' !! a = nodes two_lists !! a).
Proof.
  assert (Hl : lists two_lists !! 0%nat = Some list_135) by reflexivity.
  assert (Hc : chain (nodes two_lists) (head list_135) cells_135) by chain_tac.
  split; [exact Hl|]. split; [exact Hc|].
  exact (InsertAt_zero two_lists 0%nat list_135 cells_135 9 Hl Hc).
Defined.

(** [Prepend_Remove_String] with the value 3, which [[1 3 5]] already
    holds. *)
Lemma Prepend_Remove_String_witness :
  lists two_lists !! 0%nat = Some list_135 /\
  chain (nodes two_lists) (head list_135) cells_135 /\
  go_eqb 3 3 = true /\
  exists s h1 h2 L2,
    String pretty (Some 0%nat) two_lists = Ok s two_lists /\
    Prepend (Some 0%nat) 3 two_lists = Ok tt h1 /\
    (Remove (Some 0%nat) 3 h1) = Ok tt h2 /\
    lists h2 !! 0%nat = Some L2 /\ chain (nodes h2) (head L2) cells_135 /\
    String pretty (Some 0%nat) h2 = Ok s h2.
Proof.
  assert (Hl : lists two_lists !! 0%nat = Some list_135) by reflexivity.
  assert (Hc : chain (nodes two_lists) (head list_135) cells_135) by chain_tac.
  assert (Hvv : go_eqb 3 3 = true) by reflexivity.
  split; [exact Hl|]. split; [exact Hc|]. split; [exact Hvv|].
  exact (Prepend_Remove_String pretty two_lists 0%nat list_135 cells_135 3 Hl Hc Hvv).
Defined.

(** [Append_then_lookup] with the value 9 on [[1 3 5]]. *)
Lemma Append_then_lookup_witness :
  lists two_lists !! 0%nat = Some list_135 /\
  list_rep two_lists list_135 cells_135 /\
  Z.of_nat (S (length cells_135)) < 2 ^ 63 /\
  exists h',
    Append (Some 0%nat) 9 two_lists = Ok tt h' /\
    Get 0 (Some 0%nat) (Z.of_nat (length cells_135)) h' = Ok (9, None) h' /\
    (forall i x, cells_135.*2 !! i = Some x ->
       Get 0 (Some 0%nat) (Z.of_nat i) h' = Ok (x, None) h') /\
    (go_eqb 9 9 = true -> Forall (fun x => go_eqb x 9 = false) cells_135.*2 ->
     (Search (Some 0%nat) 9 h') = Ok (Z.of_nat (length cells_135)) h').
Proof.
  assert (Hl : lists two_lists !! 0%nat = Some list_135) by reflexivity.
  assert (Hrep : list_rep two_lists list_135 cells_135)
    by (split; [chain_tac | reflexivity]).
  assert (Hmax : Z.of_nat (S (length cells_135)) < 2 ^ 63) by reflexivity.
  split; [exact Hl|]. split; [exact Hrep|]. split; [exact Hmax|].
  exact (Append_then_lookup 0 two_lists 0%nat list_135 cells_135 9 Hl Hrep Hmax).
Defined.

(** [Prepend_then_lookup] with the value 9 on [[1 3 5]]. *)
Lemma Prepend_then_lookup_witness :
  lists two_lists !! 0%nat = Some list_135 /\
  chain (nodes two_lists) (head list_135) cells_135 /\
  exists h',
    Prepend (Some 0%nat) 9 two_lists = Ok tt h' /\
    Get 0 (Some 0%nat) 0 h' = Ok (9, None) h' /\
    (go_eqb 9 9 = true -> (Search (Some 0%nat) 9 h') = Ok 0 h') /\
    (forall i x, cells_135.*2 !! i = Some x ->
       Get 0 (Some 0%nat) (Z.of_nat (S i)) h' = Ok (x, None) h').
Proof.
  assert (Hl : lists two_lists !! 0%nat = Some list_135) by reflexivity.
  assert (Hc : chain (nodes two_lists) (head list_135) cells_135) by chain_tac.
  split; [exact Hl|]. split; [exact Hc|].
  exact (Prepend_then_lookup 0 two_lists 0%nat list_135 cells_135 9 Hl Hc).
Defined.

(** [Append_Prepend_invariants] for [Append(1); Prepend(2); Append(3)]. *)
Lemma Append_Prepend_invariants_witness :
  Z.of_nat (length three_ops) < 2 ^ 63 /\
  exists l h1 h2 L cs,
    NewLinkedList empty_store = Ok (Some l) h1 /\
    run_ops (Some l) three_ops h1 = Ok tt h2 /\
    lists h2 !! l = Some L /\
    chain (nodes h2) (head L) cs /\
    cs.*2 = foldl apply_op [] three_ops /\
    (head L = None <-> three_ops = []) /\
    (tail L = None <-> three_ops = []) /\
    (forall t, tail L = Some t ->
       exists x, last cs = Some (t, x) /\ nodes h2 !! t = Some (Node x None)) /\
    size L = Z.of_nat (length three_ops).
Proof.
  assert (Hmax : Z.of_nat (length three_ops) < 2 ^ 63) by reflexivity.
  split; [exact Hmax|].
  exact (Append_Prepend_invariants empty_store three_ops Hmax).
Defined.

Lemma disjoint_135_24 : forall a, a ∈ cells_135.*1 -> a ∉ cells_24.*1.
Proof.
  intros a Ha Hb. simpl in Ha, Hb.
  repeat (apply elem_of_cons in Hb as [Hb|Hb];
          [subst a; repeat (apply elem_of_cons in Ha as [Ha|Ha]; [discriminate Ha|]);
           inversion Ha|]).
  inversion Hb.
Qed.

(** [ConcatenarListas_shares] on [[1 3 5]] and [[2 4]]. *)
Lemma ConcatenarListas_shares_witness :
  lists two_lists !! 0%nat = Some list_135 /\
  lists two_lists !! 1%nat = Some list_24 /\
  list_rep two_lists list_135 cells_135 /\
  list_rep two_lists list_24 cells_24 /\
  cells_135 <> [] /\ cells_24 <> [] /\
  (forall a, a ∈ cells_135.*1 -> a ∉ cells_24.*1) /\
  exists h' L1',
    ConcatenarListas None (Some 0%nat) (Some 1%nat) two_lists = Ok (Some 0%nat) h' /\
    lists h' !! 0%nat = Some L1' /\ list_rep h' L1' (cells_135 ++ cells_24) /\
    lists h' !! 1%nat = Some list_24 /\ list_rep h' list_24 cells_24 /\
    tail L1' = tail list_24 /\ size L1' = wrap (size list_135 + size list_24).
Proof.
  assert (Hl1 : lists two_lists !! 0%nat = Some list_135) by reflexivity.
  assert (Hl2 : lists two_lists !! 1%nat = Some list_24) by reflexivity.
  assert (Hrep1 : list_rep two_lists list_135 cells_135)
    by (split; [chain_tac | reflexivity]).
  assert (Hrep2 : list_rep two_lists list_24 cells_24)
    by (split; [chain_tac | reflexivity]).
  assert (Hne1 : cells_135 <> []) by discriminate.
  assert (Hne2 : cells_24 <> []) by discriminate.
  pose proof disjoint_135_24 as Hdis.
  repeat (split; [assumption|]).
  exact (ConcatenarListas_shares None two_lists 0%nat 1%nat list_135 list_24
           cells_135 cells_24 Hl1 Hl2 Hrep1 Hrep2 Hne1 Hne2 Hdis).
Defined.

(** [Remove_last_then_Append] on [[1 3 5]]: remove 5, then append 7. *)
Lemma Remove_last_then_Append_witness :
  lists two_lists !! 0%nat = Some list_135 /\
  list_rep two_lists list_135 ([(0%nat, 1); (1%nat, 3)] ++ [(2%nat, 5)]) /\
  ([(0%nat, 1); (1%nat, 3)] : list (loc * Z)) <> [] /\
  Forall (fun y => go_eqb y 5 = false) ([(0%nat, 1); (1%nat, 3)] : list (loc * Z)).*2 /\
  go_eqb 5 5 = true /\
  exists h1 h2 L2,
    (Remove (Some 0%nat) 5 two_lists) = Ok tt h1 /\
    Append (Some 0%nat) 7 h1 = Ok tt h2 /\
    lists h2 !! 0%nat = Some L2 /\
    chain (nodes h2) (head L2) [(0%nat, 1); (1%nat, 3)] /\
    tail L2 = Some (length (nodes two_lists)) /\
    length (nodes two_lists) ∉ ([(0%nat, 1); (1%nat, 3)] : list (loc * Z)).*1.
Proof.
  assert (Hl : lists two_lists !! 0%nat = Some list_135) by reflexivity.
  assert (Hrep : list_rep two_lists list_135 ([(0%nat, 1); (1%nat, 3)] ++ [(2%nat, 5)]))
    by (split; [chain_tac | reflexivity]).
  assert (Hne : ([(0%nat, 1); (1%nat, 3)] : list (loc * Z)) <> []) by discriminate.
  assert (Hx : Forall (fun y => go_eqb y 5 = false)
                 ([(0%nat, 1); (1%nat, 3)] : list (loc * Z)).*2)
    by (repeat constructor).
  assert (Hxx : go_eqb 5 5 = true) by reflexivity.
  split; [exact Hl|]. split; [exact Hrep|]. split; [exact Hne|]. split; [exact Hx|].
  split; [exact Hxx|].
  exact (Remove_last_then_Append two_lists 0%nat list_135 [(0%nat, 1); (1%nat, 3)]
           2%nat 5 7 Hl Hrep Hne Hx Hxx).
Defined.

(** [Remove_only_then_Append] on the list [[4]]: remove 4, then append 7. *)
Lemma Remove_only_then_Append_witness :
  lists one_store !! 0%nat = Some list_4 /\
  chain (nodes one_store) (head list_4) [(0%nat, 4)] /\
  go_eqb 4 4 = true /\
  exists h1 h2 L2,
    (Remove (Some 0%nat) 4 one_store) = Ok tt h1 /\
    Append (Some 0%nat) 7 h1 = Ok tt h2 /\
    lists h2 !! 0%nat = Some L2 /\
    list_rep h2 L2 [(length (nodes one_store), 7)].
Proof.
  assert (Hl : lists one_store !! 0%nat = Some list_4) by reflexivity.
  assert (Hc : chain (nodes one_store) (head list_4) [(0%nat, 4)]) by chain_tac.
  assert (Hxx : go_eqb 4 4 = true) by reflexivity.
  split; [exact Hl|]. split; [exact Hc|]. split; [exact Hxx|].
  exact (Remove_only_then_Append one_store 0%nat list_4 0%nat 4 7 Hl Hc Hxx).
Defined.

(** [IntercalarListas_as_Appends] on [[1 3 5]] and [[2 4]]. *)
Lemma IntercalarListas_as_Appends_witness :
  lists two_lists !! 0%nat = Some list_135 /\
  lists two_lists !! 1%nat = Some list_24 /\
  chain (nodes two_lists) (head list_135) cells_135 /\
  chain (nodes two_lists) (head list_24) cells_24 /\
  IntercalarListas None (Some 0%nat) (Some 1%nat) two_lists
  = bind NewLinkedList
      (fun r => bind (Appends r (interleave cells_135.*2 cells_24.*2))
                  (fun _ => ret r)) two_lists.
Proof.
  assert (Hl1 : lists two_lists !! 0%nat = Some list_135) by reflexivity.
  assert (Hl2 : lists two_lists !! 1%nat = Some list_24) by reflexivity.
  assert (Hc1 : chain (nodes two_lists) (head list_135) cells_135) by chain_tac.
  assert (Hc2 : chain (nodes two_lists) (head list_24) cells_24) by chain_tac.
  repeat (split; [assumption|]).
  exact (IntercalarListas_as_Appends None two_lists 0%nat 1%nat list_135 list_24
           cells_135 cells_24 Hl1 Hl2 Hc1 Hc2).
Defined.
